(** * ANA avatar: the procedural animation core of [vrm-avatar-scene.tsx]

    A shallow embedding of the per-frame animation loop [animate], of the
    smoothing and easing helpers it uses, and of the effect clean-up, with
    the properties the design document states about them.

    JavaScript numbers are modelled as real numbers: [Math.sin], [Math.cos],
    [Math.min], [Math.max], [Math.abs] are the functions of the same name on
    [R], [Math.pow] is [Math_pow] below, and a comparison yields the [bool]
    deciding the corresponding order on [R].  Rounding, NaN and the
    infinities are outside the model.  Each call site of [Math.random] is an
    input of the frame, a number of the interval [0,1). *)

From stdpp Require Import base list gmap strings.
From Stdlib Require Import Reals Lra Lia ZArith.

Open Scope R_scope.

(** ** Numbers *)

Definition Rgtb (a b : R) : bool := if Rlt_dec b a then true else false.
Definition Rltb (a b : R) : bool := if Rlt_dec a b then true else false.
Definition Rgeb (a b : R) : bool := if Rle_dec b a then true else false.

(** [Math.pow]: the real power for a positive base; for a base that is not
    positive the result is defined when the exponent is an integer.  Where
    JavaScript answers NaN or Infinity the model answers 0. *)
Definition Math_pow (b e : R) : R :=
  if Rlt_dec 0 b then Rpower b e
  else if Req_dec_T e (IZR (Int_part e)) then powerRZ b (Int_part e)
  else 0.

Definition Math_floor (a : R) : Z := Int_part a.

(** ** Easing and smoothing (lines 94-111) *)

Definition easeInOutCubic (t : R) : R :=
  if Rltb t 0.5 then 4 * t * t * t else 1 - Math_pow (-2 * t + 2) 3 / 2.

Definition easeOutQuad (t : R) : R := 1 - (1 - t) * (1 - t).

Definition easeInOutQuad (t : R) : R :=
  if Rltb t 0.5 then 2 * t * t else 1 - Math_pow (-2 * t + 2) 2 / 2.

Definition smoothLerp (current target factor deltaTime : R) : R :=
  let adjustedFactor := 1 - Math_pow (1 - factor) (deltaTime * 60) in
  current + (target - current) * adjustedFactor.

(** Iterating the smoothing step towards a constant target, one frame per
    element of [deltaTimes]. *)
Fixpoint smoothRun (current target factor : R) (deltaTimes : list R) : R :=
  match deltaTimes with
  | [] => current
  | deltaTime :: rest =>
      smoothRun (smoothLerp current target factor deltaTime) target factor rest
  end.

(** The values [current] takes along the run, frame after frame. *)
Fixpoint smoothTrace (current target factor : R) (deltaTimes : list R) : list R :=
  match deltaTimes with
  | [] => []
  | deltaTime :: rest =>
      let current' := smoothLerp current target factor deltaTime in
      current' :: smoothTrace current' target factor rest
  end.

Definition Rsum (l : list R) : R := foldr Rplus 0 l.

(** ** Data *)

Record Vec3 : Type := mkVec3 { x : R; y : R; z : R }.

Definition smoothVec3 (current target : Vec3) (factor deltaTime : R) : Vec3 :=
  {| x := smoothLerp current.(x) target.(x) factor deltaTime;
     y := smoothLerp current.(y) target.(y) factor deltaTime;
     z := smoothLerp current.(z) target.(z) factor deltaTime |}.

(** The values of [currentExpression].  [Undefined] is what indexing the
    array of moods out of its bounds would give. *)
Inductive Mood : Type :=
  Neutral | Happy | Surprised | Thinking | Relaxed | Undefined.

Definition Mood_eqb (a b : Mood) : bool :=
  match a, b with
  | Neutral, Neutral | Happy, Happy | Surprised, Surprised
  | Thinking, Thinking | Relaxed, Relaxed | Undefined, Undefined => true
  | _, _ => false
  end.

Record MouthShapes : Type := mkMouth { aa : R; ih : R; ou : R; oh : R }.

Record ExpressionValues : Type := mkExpr {
  happy : R; surprised : R; relaxed : R; neutral : R;
  sad : R; angry : R; blink : R
}.

(** The six draws of [Math.random] a frame can make, one per call site. *)
Record Random : Type := mkRandom {
  rndExpression : R;          (* line 330 *)
  rndExpressionIntensity : R; (* line 331 *)
  rndExpressionTime : R;      (* line 332 *)
  rndBlink : R;               (* line 352 *)
  rndGesture : R;             (* line 454 *)
  rndGestureTime : R          (* line 455 *)
}.

Definition unit_draw (r : R) : Prop := 0 <= r < 1.

Definition Random_ok (rnd : Random) : Prop :=
  unit_draw rnd.(rndExpression) /\ unit_draw rnd.(rndExpressionIntensity) /\
  unit_draw rnd.(rndExpressionTime) /\ unit_draw rnd.(rndBlink) /\
  unit_draw rnd.(rndGesture) /\ unit_draw rnd.(rndGestureTime).

(** ** Audio analysis (lines 294-324) *)

(** What the analyser gives on a frame. *)
Inductive AudioRead : Type :=
| NoAnalyser                       (* no analyser was set up *)
| ReadThrows                       (* [getByteFrequencyData] throws *)
| Spectrum (dataArray : list Z).   (* the bytes it stores in [dataArray] *)

(** The locals [audioVolume], [lowFreq], [midFreq], [highFreq]. *)
Record Bands : Type := mkBands {
  audioVolume : R; lowFreq : R; midFreq : R; highFreq : R
}.

Definition silence : Bands :=
  {| audioVolume := 0; lowFreq := 0; midFreq := 0; highFreq := 0 |}.

Definition reduce_sum (l : list Z) : Z := foldl Z.add 0%Z l.

Definition analyse (dataArray : list Z) : Bands :=
  let len := length dataArray in
  let third := (len / 3)%nat in
  {| audioVolume := IZR (reduce_sum dataArray) / INR len / 255;
     lowFreq := IZR (reduce_sum (take third dataArray)) / INR third / 255;
     midFreq :=
       IZR (reduce_sum (take third (drop third dataArray))) / INR third / 255;
     highFreq :=
       IZR (reduce_sum (drop (third * 2) dataArray)) / INR third / 255 |}.

Record Speech : Type := mkSpeech {
  isSpeaking : bool;
  speechIntensity : R;
  targetSpeechIntensity : R
}.

Definition speakingThreshold (isSpeaking : bool) : R :=
  if isSpeaking then 0.015 else 0.025.

(** Lines 315-317: the classifier, fed the volume of the frame. *)
Definition detectSpeech (isSpeaking : bool) (audioVolume : R) : bool * R :=
  let isSpeaking' := Rgtb audioVolume (speakingThreshold isSpeaking) in
  (isSpeaking', if isSpeaking' then Rmin (audioVolume * 2) 1 else 0).

(** The classifier run over a signal, one sample per frame: the flag and
    the intensity target after each frame. *)
Fixpoint detectRun (isSpeaking : bool) (volumes : list R) : list (bool * R) :=
  match volumes with
  | [] => []
  | v :: rest =>
      let r := detectSpeech isSpeaking v in r :: detectRun (fst r) rest
  end.

(** Lines 295-321. *)
Definition audioAnalysis (s : Speech) (a : AudioRead) : Speech * Bands :=
  match a with
  | NoAnalyser => (s, silence)
  | ReadThrows => (s, silence)
  | Spectrum dataArray =>
      if bool_decide (0 < length dataArray)%nat then
        let b := analyse dataArray in
        let r := detectSpeech s.(isSpeaking) b.(audioVolume) in
        ({| isSpeaking := fst r;
            speechIntensity := s.(speechIntensity);
            targetSpeechIntensity := snd r |}, b)
      else (s, silence)
  end.

(** Line 324. *)
Definition smoothSpeech (s : Speech) (deltaTime : R) : Speech :=
  {| isSpeaking := s.(isSpeaking);
     speechIntensity :=
       smoothLerp s.(speechIntensity) s.(targetSpeechIntensity) 0.15 deltaTime;
     targetSpeechIntensity := s.(targetSpeechIntensity) |}.

(** ** Expression controller (lines 326-418) *)

Record MoodState : Type := mkMood {
  currentExpression : Mood;
  previousExpression : Mood;
  expressionIntensity : R;
  targetExpressionIntensity : R;
  nextExpressionTime : R;
  expressionTransitionProgress : R
}.

Definition expressions : list Mood := [Happy; Surprised; Thinking; Relaxed].

(** [expressions[Math.floor(Math.random() * expressions.length)]]. *)
Definition pickExpression (r : R) : Mood :=
  let i := Math_floor (r * INR (length expressions)) in
  if (i <? 0)%Z then Undefined
  else default Undefined (expressions !! Z.to_nat i).

(** Lines 327-339. *)
Definition selectExpression (isSpeaking : bool) (elapsedTime : R)
    (rnd : Random) (m : MoodState) : MoodState :=
  if isSpeaking && Rgeb elapsedTime m.(nextExpressionTime)
     && Rgeb m.(expressionTransitionProgress) 1
  then
    {| currentExpression := pickExpression rnd.(rndExpression);
       previousExpression := m.(currentExpression);
       expressionIntensity := m.(expressionIntensity);
       targetExpressionIntensity := 0.25 + rnd.(rndExpressionIntensity) * 0.35;
       nextExpressionTime := elapsedTime + 2.5 + rnd.(rndExpressionTime) * 3;
       expressionTransitionProgress := 0 |}
  else if negb isSpeaking && negb (Mood_eqb m.(currentExpression) Neutral)
  then
    {| currentExpression := Neutral;
       previousExpression := m.(currentExpression);
       expressionIntensity := m.(expressionIntensity);
       targetExpressionIntensity := 0;
       nextExpressionTime := m.(nextExpressionTime);
       expressionTransitionProgress := 0 |}
  else m.

(** Lines 342-348, after which [easedTransition] is
    [easeInOutQuad expressionTransitionProgress]. *)
Definition advanceExpression (deltaTime : R) (m : MoodState) : MoodState :=
  {| currentExpression := m.(currentExpression);
     previousExpression := m.(previousExpression);
     expressionIntensity :=
       smoothLerp m.(expressionIntensity) m.(targetExpressionIntensity)
         0.08 deltaTime;
     targetExpressionIntensity := m.(targetExpressionIntensity);
     nextExpressionTime := m.(nextExpressionTime);
     expressionTransitionProgress :=
       if Rltb m.(expressionTransitionProgress) 1
       then Rmin 1 (m.(expressionTransitionProgress) + deltaTime * 0.8)
       else m.(expressionTransitionProgress) |}.

(** Lines 351-353. *)
Definition reseedBlink (isSpeaking : bool) (elapsedTime : R) (rnd : Random)
    (nextBlinkTime : R) : R :=
  if Rgeb elapsedTime nextBlinkTime && negb isSpeaking
  then elapsedTime + 2.5 + rnd.(rndBlink) * 3.5
  else nextBlinkTime.

(** Lines 354-356: the value stored in [targetExpressionValues.blink]. *)
Definition blinkProgress (elapsedTime nextBlinkTime : R) : R :=
  Rmax 0 (1 - Rabs (elapsedTime - nextBlinkTime + 0.15) / 0.15).

Definition blinkTarget (elapsedTime nextBlinkTime : R) : R :=
  easeInOutCubic (blinkProgress elapsedTime nextBlinkTime).

(** Lines 359-369. *)
Definition mouthTargets (isSpeaking : bool) (b : Bands) : MouthShapes :=
  if isSpeaking then
    {| aa := b.(lowFreq) * 0.8;
       ih := b.(highFreq) * 0.6;
       ou := b.(midFreq) * 0.5;
       oh := (b.(lowFreq) + b.(midFreq)) * 0.4 |}
  else {| aa := 0; ih := 0; ou := 0; oh := 0 |}.

(** Lines 372-375. *)
Definition smoothMouth (current target : MouthShapes) (deltaTime : R)
    : MouthShapes :=
  {| aa := smoothLerp current.(aa) target.(aa) 0.25 deltaTime;
     ih := smoothLerp current.(ih) target.(ih) 0.25 deltaTime;
     ou := smoothLerp current.(ou) target.(ou) 0.25 deltaTime;
     oh := smoothLerp current.(oh) target.(oh) 0.25 deltaTime |}.

(** Lines 378-399: every target but [blink] is cleared, then the mood
    sets its own. *)
Definition expressionTargets (isSpeaking : bool) (m : MoodState)
    (speechIntensity blinkT : R) : ExpressionValues :=
  let easedTransition := easeInOutQuad m.(expressionTransitionProgress) in
  let e := m.(expressionIntensity) in
  let cleared :=
    {| happy := 0; surprised := 0; relaxed := 0; neutral := 0;
       sad := 0; angry := 0; blink := blinkT |} in
  if isSpeaking then
    match m.(currentExpression) with
    | Happy =>
        {| happy := e * 0.7 * easedTransition; surprised := 0;
           relaxed := e * 0.2 * easedTransition; neutral := 0;
           sad := 0; angry := 0; blink := blinkT |}
    | Surprised =>
        {| happy := 0; surprised := e * 0.6 * easedTransition;
           relaxed := 0; neutral := 0; sad := 0; angry := 0; blink := blinkT |}
    | Thinking =>
        {| happy := 0; surprised := 0;
           relaxed := e * 0.3 * easedTransition;
           neutral := e * 0.4 * easedTransition;
           sad := 0; angry := 0; blink := blinkT |}
    | Relaxed =>
        {| happy := e * 0.2 * easedTransition; surprised := 0;
           relaxed := e * 0.5 * easedTransition; neutral := 0;
           sad := 0; angry := 0; blink := blinkT |}
    | Neutral | Undefined =>
        {| happy := speechIntensity * 0.15; surprised := 0; relaxed := 0;
           neutral := 0; sad := 0; angry := 0; blink := blinkT |}
    end
  else cleared.

(** Lines 402-405. *)
Definition smoothExpressions (current target : ExpressionValues)
    (deltaTime : R) : ExpressionValues :=
  {| happy := smoothLerp current.(happy) target.(happy) 0.1 deltaTime;
     surprised :=
       smoothLerp current.(surprised) target.(surprised) 0.1 deltaTime;
     relaxed := smoothLerp current.(relaxed) target.(relaxed) 0.1 deltaTime;
     neutral := smoothLerp current.(neutral) target.(neutral) 0.1 deltaTime;
     sad := smoothLerp current.(sad) target.(sad) 0.1 deltaTime;
     angry := smoothLerp current.(angry) target.(angry) 0.1 deltaTime;
     blink := smoothLerp current.(blink) target.(blink) 0.1 deltaTime |}.

(** ** The rig

    [expressionManager] and [humanoid] may be missing.  An expression
    manager is the weight last passed to [setValue] for each name; a
    humanoid gives the rotation of each bone it has, and
    [getNormalizedBoneNode] of a bone it has not is [null]. *)
Record Rig : Type := mkRig {
  expressionManager : option (gmap string R);
  humanoid : option (gmap string Vec3)
}.

Definition setValue (name : string) (weight : R) (em : gmap string R)
    : gmap string R := <[name := weight]> em.

(** Lines 408-418. *)
Definition applyExpressions (mouth : MouthShapes) (ev : ExpressionValues)
    (em : gmap string R) : gmap string R :=
  setValue "neutral" ev.(neutral)
    (setValue "relaxed" ev.(relaxed)
      (setValue "surprised" ev.(surprised)
        (setValue "happy" ev.(happy)
          (setValue "blink" ev.(blink)
            (setValue "oh" (Rmin mouth.(oh) 1)
              (setValue "ou" (Rmin mouth.(ou) 1)
                (setValue "ih" (Rmin mouth.(ih) 1)
                  (setValue "aa" (Rmin mouth.(aa) 1) em)))))))).

Definition set_x (a : R) (v : Vec3) : Vec3 := {| x := a; y := v.(y); z := v.(z) |}.
Definition set_y (a : R) (v : Vec3) : Vec3 := {| x := v.(x); y := a; z := v.(z) |}.
Definition set_z (a : R) (v : Vec3) : Vec3 := {| x := v.(x); y := v.(y); z := a |}.

Definition hasBone (name : string) (bones : gmap string Vec3) : bool :=
  bool_decide (is_Some (bones !! name)).

(** ** Gesture controller (lines 441-575) *)

Record GestureState : Type := mkGesture {
  gesturePhase : R;
  currentGesture : Z;
  nextGestureTime : R;
  gestureTransitionProgress : R;
  previousGesture : Z;
  headRotation : Vec3;
  targetHeadRotation : Vec3;
  previousHeadRotation : Vec3;
  neckRotation : Vec3;
  targetNeckRotation : Vec3;
  eyebrowIntensity : R;
  targetEyebrowIntensity : R
}.

(** Lines 448-458: a new gesture is triggered. *)
Definition selectGesture (elapsedTime : R) (rnd : Random) (g : GestureState)
    : GestureState :=
  if Rgeb elapsedTime g.(nextGestureTime) then
    {| gesturePhase := 0;
       currentGesture := Math_floor (rnd.(rndGesture) * 7);
       nextGestureTime := elapsedTime + 2 + rnd.(rndGestureTime) * 2;
       gestureTransitionProgress := 0;
       previousGesture := g.(currentGesture);
       headRotation := g.(headRotation);
       targetHeadRotation := g.(targetHeadRotation);
       previousHeadRotation := g.(targetHeadRotation);
       neckRotation := g.(neckRotation);
       targetNeckRotation := g.(targetNeckRotation);
       eyebrowIntensity := g.(eyebrowIntensity);
       targetEyebrowIntensity := g.(targetEyebrowIntensity) |}
  else g.

(** Lines 469-520: the head and neck rotations and the eyebrow value of a
    gesture. *)
Definition gestureTargets (currentGesture : Z) (gesturePhase elapsedTime : R)
    : Vec3 * Vec3 * R :=
  match currentGesture with
  | 1%Z =>
      ({| x := sin (gesturePhase * 2) * 0.08;
          y := sin (elapsedTime * 0.3) * 0.015; z := 0 |},
       {| x := sin (gesturePhase * 2) * 0.025; y := 0; z := 0 |}, 0.18)
  | 2%Z =>
      ({| x := sin (elapsedTime * 0.5) * 0.025;
          y := sin (elapsedTime * 0.4) * 0.035;
          z := sin (gesturePhase * 1) * 0.06 |},
       {| x := 0; y := 0; z := sin (gesturePhase * 1) * 0.018 |}, 0.12)
  | 3%Z =>
      ({| x := sin (elapsedTime * 0.4) * 0.018;
          y := sin (gesturePhase * 1.8) * 0.055; z := 0 |},
       {| x := 0; y := sin (gesturePhase * 1.8) * 0.018; z := 0 |}, 0.08)
  | 4%Z =>
      ({| x := 0.04 + sin (elapsedTime * 0.6) * 0.015;
          y := sin (elapsedTime * 0.4) * 0.025; z := 0 |},
       {| x := 0.025; y := 0; z := 0 |}, 0.2)
  | 5%Z =>
      ({| x := sin (elapsedTime * 0.5) * 0.018;
          y := 0.05 + sin (gesturePhase * 1.2) * 0.025;
          z := sin (elapsedTime * 0.4) * 0.015 |},
       {| x := 0; y := 0.018; z := 0 |}, 0.08)
  | 6%Z =>
      ({| x := 0.06 + sin (elapsedTime * 0.5) * 0.02;
          y := sin (elapsedTime * 0.3) * 0.02;
          z := sin (elapsedTime * 0.4) * 0.01 |},
       {| x := 0.03; y := 0; z := 0 |}, 0.1)
  | _ =>
      ({| x := sin (elapsedTime * 0.5) * 0.02;
          y := sin (elapsedTime * 0.4) * 0.028;
          z := sin (elapsedTime * 0.3) * 0.012 |},
       {| x := sin (elapsedTime * 0.6) * 0.008;
          y := sin (elapsedTime * 0.5) * 0.008; z := 0 |}, 0.04)
  end.

(** Lines 460-534: the speaking branch after the trigger. *)
Definition speakingGesture (speechIntensity deltaTime elapsedTime : R)
    (g : GestureState) : GestureState :=
  let gesturePhase' := g.(gesturePhase) + deltaTime in
  let progress' :=
    if Rltb g.(gestureTransitionProgress) 1
    then Rmin 1 (g.(gestureTransitionProgress) + deltaTime * 1.5)
    else g.(gestureTransitionProgress) in
  let easedGestureTransition := easeInOutQuad progress' in
  let '(newHead, newNeck, newTargetEyebrow) :=
    gestureTargets g.(currentGesture) gesturePhase' elapsedTime in
  let prev := g.(previousHeadRotation) in
  {| gesturePhase := gesturePhase';
     currentGesture := g.(currentGesture);
     nextGestureTime := g.(nextGestureTime);
     gestureTransitionProgress := progress';
     previousGesture := g.(previousGesture);
     headRotation := g.(headRotation);
     targetHeadRotation :=
       {| x := prev.(x) + (newHead.(x) - prev.(x)) * easedGestureTransition
               + speechIntensity * sin (elapsedTime * 2.2) * 0.012;
          y := prev.(y) + (newHead.(y) - prev.(y)) * easedGestureTransition
               + speechIntensity * cos (elapsedTime * 1.8) * 0.01;
          z := prev.(z) + (newHead.(z) - prev.(z)) * easedGestureTransition |};
     previousHeadRotation := prev;
     neckRotation := g.(neckRotation);
     targetNeckRotation := newNeck;
     eyebrowIntensity := g.(eyebrowIntensity);
     targetEyebrowIntensity := newTargetEyebrow |}.

(** Lines 536-547: the idle branch. *)
Definition idleGesture (elapsedTime : R) (g : GestureState) : GestureState :=
  {| gesturePhase := 0;
     currentGesture := 0;
     nextGestureTime := elapsedTime + 2;
     gestureTransitionProgress := 1;
     previousGesture := g.(previousGesture);
     headRotation := g.(headRotation);
     targetHeadRotation :=
       {| x := sin (elapsedTime * 0.35) * 0.035;
          y := sin (elapsedTime * 0.28) * 0.05;
          z := sin (elapsedTime * 0.22) * 0.012 |};
     previousHeadRotation := g.(previousHeadRotation);
     neckRotation := g.(neckRotation);
     targetNeckRotation :=
       {| x := sin (elapsedTime * 0.4) * 0.008;
          y := sin (elapsedTime * 0.3) * 0.008; z := 0 |};
     eyebrowIntensity := g.(eyebrowIntensity);
     targetEyebrowIntensity := 0 |}.

(** Lines 551-553, 562-564 and 572, each a record update. *)
Definition smoothHead (deltaTime : R) (g : GestureState) : GestureState :=
  {| gesturePhase := g.(gesturePhase);
     currentGesture := g.(currentGesture);
     nextGestureTime := g.(nextGestureTime);
     gestureTransitionProgress := g.(gestureTransitionProgress);
     previousGesture := g.(previousGesture);
     headRotation :=
       smoothVec3 g.(headRotation) g.(targetHeadRotation) 0.08 deltaTime;
     targetHeadRotation := g.(targetHeadRotation);
     previousHeadRotation := g.(previousHeadRotation);
     neckRotation := g.(neckRotation);
     targetNeckRotation := g.(targetNeckRotation);
     eyebrowIntensity := g.(eyebrowIntensity);
     targetEyebrowIntensity := g.(targetEyebrowIntensity) |}.

Definition smoothNeck (deltaTime : R) (g : GestureState) : GestureState :=
  {| gesturePhase := g.(gesturePhase);
     currentGesture := g.(currentGesture);
     nextGestureTime := g.(nextGestureTime);
     gestureTransitionProgress := g.(gestureTransitionProgress);
     previousGesture := g.(previousGesture);
     headRotation := g.(headRotation);
     targetHeadRotation := g.(targetHeadRotation);
     previousHeadRotation := g.(previousHeadRotation);
     neckRotation :=
       smoothVec3 g.(neckRotation) g.(targetNeckRotation) 0.06 deltaTime;
     targetNeckRotation := g.(targetNeckRotation);
     eyebrowIntensity := g.(eyebrowIntensity);
     targetEyebrowIntensity := g.(targetEyebrowIntensity) |}.

Definition smoothEyebrow (deltaTime : R) (g : GestureState) : GestureState :=
  {| gesturePhase := g.(gesturePhase);
     currentGesture := g.(currentGesture);
     nextGestureTime := g.(nextGestureTime);
     gestureTransitionProgress := g.(gestureTransitionProgress);
     previousGesture := g.(previousGesture);
     headRotation := g.(headRotation);
     targetHeadRotation := g.(targetHeadRotation);
     previousHeadRotation := g.(previousHeadRotation);
     neckRotation := g.(neckRotation);
     targetNeckRotation := g.(targetNeckRotation);
     eyebrowIntensity :=
       smoothLerp g.(eyebrowIntensity) g.(targetEyebrowIntensity) 0.08
         deltaTime;
     targetEyebrowIntensity := g.(targetEyebrowIntensity) |}.

(** Lines 445-558: the head block, run when the rig has a head bone. *)
Definition headGesture (isSpeaking : bool)
    (speechIntensity deltaTime elapsedTime : R) (rnd : Random)
    (g : GestureState) : GestureState :=
  smoothHead deltaTime
    (if isSpeaking
     then speakingGesture speechIntensity deltaTime elapsedTime
            (selectGesture elapsedTime rnd g)
     else idleGesture elapsedTime g).

(** Lines 442-575 on the gesture state and the bones. *)
Definition gestureStep (isSpeaking : bool)
    (speechIntensity deltaTime elapsedTime : R) (rnd : Random)
    (g : GestureState) (bones : gmap string Vec3)
    : GestureState * gmap string Vec3 :=
  let g1 :=
    if hasBone "head" bones
    then headGesture isSpeaking speechIntensity deltaTime elapsedTime rnd g
    else g in
  let bones1 :=
    if hasBone "head" bones then <["head" := g1.(headRotation)]> bones
    else bones in
  let g2 := if hasBone "neck" bones1 then smoothNeck deltaTime g1 else g1 in
  let bones2 :=
    if hasBone "neck" bones1 then <["neck" := g2.(neckRotation)]> bones1
    else bones1 in
  (smoothEyebrow deltaTime g2, bones2).

(** Lines 573-575: the eyebrow write over the expression manager. *)
Definition applyEyebrow (isSpeaking : bool) (currentExpression : Mood)
    (eyebrowIntensity : R) (em : gmap string R) : gmap string R :=
  if isSpeaking && Mood_eqb currentExpression Neutral
  then setValue "surprised" (eyebrowIntensity * 0.15) em
  else em.

(** ** Body animator (lines 420-439 and 577-744) *)

Record Hands : Type := mkHands { left : Vec3; right : Vec3 }.

Record BodyState : Type := mkBody {
  leftArmRotation : Vec3;
  rightArmRotation : Vec3;
  targetLeftArmRotation : Vec3;
  targetRightArmRotation : Vec3;
  leftLowerArmRotation : R;          (* the field [x] *)
  rightLowerArmRotation : R;
  targetLeftLowerArmRotation : R;
  targetRightLowerArmRotation : R;
  handRotation : Hands;
  targetHandRotation : Hands
}.

(** Lines 422-426. *)
Definition breathCycle (elapsedTime : R) : R := sin (elapsedTime * 1.2) * 0.008.
Definition swayCycle (elapsedTime : R) : R := sin (elapsedTime * 0.6) * 0.006.
Definition speakingBreath (isSpeaking : bool) (speechIntensity : R) : R :=
  if isSpeaking then speechIntensity * 0.015 else 0.

(** Lines 429-439: spine and chest. *)
Definition breathe (isSpeaking : bool) (speechIntensity elapsedTime : R)
    (bones : gmap string Vec3) : gmap string Vec3 :=
  let breath := breathCycle elapsedTime + speakingBreath isSpeaking speechIntensity in
  let bones1 :=
    alter (fun r => set_z (swayCycle elapsedTime) (set_x breath r)) "spine" bones in
  alter (set_x (breath * 0.5)) "chest" bones1.

(** Lines 585-631: the targets of arms, lower arms and hands. *)
Definition gestureIntensity (speechIntensity : R) : R :=
  let baseGestureIntensity := Rmin (speechIntensity * 0.25) 0.15 in
  let emphasisMultiplier := if Rgtb speechIntensity 0.5 then 1.6 else 1.1 in
  baseGestureIntensity * emphasisMultiplier.

Definition armTargets (isSpeaking : bool) (speechIntensity elapsedTime : R)
    (b : BodyState) : BodyState :=
  let gi := gestureIntensity speechIntensity in
  let lowerArmIntensity := gi * 1.1 in
  if isSpeaking then
    {| leftArmRotation := b.(leftArmRotation);
       rightArmRotation := b.(rightArmRotation);
       targetLeftArmRotation :=
         {| x := sin (elapsedTime * 1.1) * gi * 1.2;
            y := cos (elapsedTime * 0.85) * gi * 0.7;
            z := -1.2 + sin (elapsedTime * 0.75) * gi * 0.6 |};
       targetRightArmRotation :=
         {| x := sin (elapsedTime * 1.1 + 1.5) * gi * 1.2;
            y := - cos (elapsedTime * 0.85) * gi * 0.7;
            z := 1.2 - sin (elapsedTime * 0.75 + 1.5) * gi * 0.6 |};
       leftLowerArmRotation := b.(leftLowerArmRotation);
       rightLowerArmRotation := b.(rightLowerArmRotation);
       targetLeftLowerArmRotation :=
         -0.2 + sin (elapsedTime * 1.4) * lowerArmIntensity;
       targetRightLowerArmRotation :=
         -0.2 + cos (elapsedTime * 1.4) * lowerArmIntensity;
       handRotation := b.(handRotation);
       targetHandRotation :=
         {| left :=
              {| x := sin (elapsedTime * 1.6) * gi * 0.4;
                 y := cos (elapsedTime * 1.3) * gi * 0.35;
                 z := sin (elapsedTime * 1.1) * gi * 0.35 |};
            right :=
              {| x := sin (elapsedTime * 1.6 + 1) * gi * 0.4;
                 y := - cos (elapsedTime * 1.3) * gi * 0.35;
                 z := cos (elapsedTime * 1.1) * gi * 0.35 |} |} |}
  else
    {| leftArmRotation := b.(leftArmRotation);
       rightArmRotation := b.(rightArmRotation);
       targetLeftArmRotation :=
         {| x := sin (elapsedTime * 0.65) * 0.012; y := 0; z := -1.2 |};
       targetRightArmRotation :=
         {| x := sin (elapsedTime * 0.65 + PI) * 0.012; y := 0; z := 1.2 |};
       leftLowerArmRotation := b.(leftLowerArmRotation);
       rightLowerArmRotation := b.(rightLowerArmRotation);
       targetLeftLowerArmRotation := -0.2;
       targetRightLowerArmRotation := -0.2;
       handRotation := b.(handRotation);
       targetHandRotation :=
         {| left := {| x := 0; y := 0; z := 0 |};
            right := {| x := 0; y := 0; z := 0 |} |} |}.

(** Lines 634-650. *)
Definition smoothArms (deltaTime : R) (b : BodyState) : BodyState :=
  {| leftArmRotation :=
       smoothVec3 b.(leftArmRotation) b.(targetLeftArmRotation) 0.1 deltaTime;
     rightArmRotation :=
       smoothVec3 b.(rightArmRotation) b.(targetRightArmRotation) 0.1 deltaTime;
     targetLeftArmRotation := b.(targetLeftArmRotation);
     targetRightArmRotation := b.(targetRightArmRotation);
     leftLowerArmRotation :=
       smoothLerp b.(leftLowerArmRotation) b.(targetLeftLowerArmRotation)
         0.1 deltaTime;
     rightLowerArmRotation :=
       smoothLerp b.(rightLowerArmRotation) b.(targetRightLowerArmRotation)
         0.1 deltaTime;
     targetLeftLowerArmRotation := b.(targetLeftLowerArmRotation);
     targetRightLowerArmRotation := b.(targetRightLowerArmRotation);
     handRotation :=
       {| left :=
            smoothVec3 b.(handRotation).(left) b.(targetHandRotation).(left)
              0.1 deltaTime;
          right :=
            smoothVec3 b.(handRotation).(right) b.(targetHandRotation).(right)
              0.1 deltaTime |};
     targetHandRotation := b.(targetHandRotation) |}.

(** Lines 653-678. *)
Definition applyArms (b : BodyState) (bones : gmap string Vec3)
    : gmap string Vec3 :=
  alter (fun _ => b.(handRotation).(right)) "rightHand"
    (alter (fun _ => b.(handRotation).(left)) "leftHand"
      (alter (set_x b.(rightLowerArmRotation)) "rightLowerArm"
        (alter (set_x b.(leftLowerArmRotation)) "leftLowerArm"
          (alter (fun _ => b.(rightArmRotation)) "rightUpperArm"
            (alter (fun _ => b.(leftArmRotation)) "leftUpperArm" bones))))).

(** Lines 684-706: a shoulder is smoothed from the rotation the bone has. *)
Definition shoulderTo (targetShoulderZ targetShoulderY deltaTime : R)
    (r : Vec3) : Vec3 :=
  set_y (smoothLerp r.(y) targetShoulderY 0.08 deltaTime)
    (set_z (smoothLerp r.(z) targetShoulderZ 0.08 deltaTime) r).

Definition shoulders (isSpeaking : bool)
    (speechIntensity deltaTime elapsedTime : R) (bones : gmap string Vec3)
    : gmap string Vec3 :=
  if isSpeaking && Rgtb speechIntensity 0.35 then
    alter (shoulderTo (- sin (elapsedTime * 1.3) * 0.03)
                      (- cos (elapsedTime * 1.1) * 0.015) deltaTime)
      "rightShoulder"
      (alter (shoulderTo (sin (elapsedTime * 1.3) * 0.03)
                         (cos (elapsedTime * 1.1) * 0.015) deltaTime)
         "leftShoulder" bones)
  else
    alter (shoulderTo 0 0 deltaTime) "rightShoulder"
      (alter (shoulderTo 0 0 deltaTime) "leftShoulder" bones).

(** Lines 709-713. *)
Definition hipSway (elapsedTime : R) : R := sin (elapsedTime * 0.5) * 0.005.

Definition swayHips (elapsedTime : R) (bones : gmap string Vec3)
    : gmap string Vec3 :=
  alter (set_y (hipSway elapsedTime)) "hips" bones.

(** Lines 716-744. *)
Definition fingerBones : list string :=
  [ "leftThumbProximal"; "leftThumbIntermediate"; "leftThumbDistal";
    "leftIndexProximal"; "leftIndexIntermediate"; "leftIndexDistal";
    "leftMiddleProximal"; "leftMiddleIntermediate"; "leftMiddleDistal";
    "leftRingProximal"; "leftRingIntermediate"; "leftRingDistal";
    "leftLittleProximal"; "leftLittleIntermediate"; "leftLittleDistal";
    "rightThumbProximal"; "rightThumbIntermediate"; "rightThumbDistal";
    "rightIndexProximal"; "rightIndexIntermediate"; "rightIndexDistal";
    "rightMiddleProximal"; "rightMiddleIntermediate"; "rightMiddleDistal";
    "rightRingProximal"; "rightRingIntermediate"; "rightRingDistal";
    "rightLittleProximal"; "rightLittleIntermediate"; "rightLittleDistal" ].

Definition fingerCurl (isSpeaking : bool) (speechIntensity elapsedTime : R)
    (index : nat) : R :=
  if isSpeaking && Rgtb speechIntensity 0.3
  then sin (elapsedTime * 1.5 + INR index * 0.2) * speechIntensity * 0.15
  else 0.

Definition curlFinger (target deltaTime : R) (r : Vec3) : Vec3 :=
  set_z (smoothLerp r.(z) target 0.1 deltaTime) r.

(** [fingerBones.forEach], from the bone at position [index] on. *)
Fixpoint forEachFinger (isSpeaking : bool)
    (speechIntensity deltaTime elapsedTime : R) (index : nat)
    (names : list string) (bones : gmap string Vec3) : gmap string Vec3 :=
  match names with
  | [] => bones
  | boneName :: rest =>
      forEachFinger isSpeaking speechIntensity deltaTime elapsedTime
        (S index) rest
        (alter (curlFinger
                  (fingerCurl isSpeaking speechIntensity elapsedTime index)
                  deltaTime)
           boneName bones)
  end.

Definition fingers (isSpeaking : bool)
    (speechIntensity deltaTime elapsedTime : R) (bones : gmap string Vec3)
    : gmap string Vec3 :=
  forEachFinger isSpeaking speechIntensity deltaTime elapsedTime 0
    fingerBones bones.

(** ** The frame (lines 284-749) *)

Record State : Type := mkState {
  speech : Speech;
  mood : MoodState;
  nextBlinkTime : R;
  mouthShapes : MouthShapes;
  targetMouthShapes : MouthShapes;
  expressionValues : ExpressionValues;
  targetExpressionValues : ExpressionValues;
  gesture : GestureState;
  body : BodyState
}.

Definition zero3 : Vec3 := {| x := 0; y := 0; z := 0 |}.

(** Lines 163-235; [r] is the draw of line 163. *)
Definition initialState (r : R) : State :=
  {| speech :=
       {| isSpeaking := false; speechIntensity := 0;
          targetSpeechIntensity := 0 |};
     mood :=
       {| currentExpression := Neutral; previousExpression := Neutral;
          expressionIntensity := 0; targetExpressionIntensity := 0;
          nextExpressionTime := 0; expressionTransitionProgress := 1 |};
     nextBlinkTime := 2 + r * 3;
     mouthShapes := {| aa := 0; ih := 0; ou := 0; oh := 0 |};
     targetMouthShapes := {| aa := 0; ih := 0; ou := 0; oh := 0 |};
     expressionValues :=
       {| happy := 0; surprised := 0; relaxed := 0; neutral := 0;
          sad := 0; angry := 0; blink := 0 |};
     targetExpressionValues :=
       {| happy := 0; surprised := 0; relaxed := 0; neutral := 0;
          sad := 0; angry := 0; blink := 0 |};
     gesture :=
       {| gesturePhase := 0; currentGesture := 0; nextGestureTime := 0;
          gestureTransitionProgress := 0; previousGesture := 0;
          headRotation := zero3; targetHeadRotation := zero3;
          previousHeadRotation := zero3;
          neckRotation := zero3; targetNeckRotation := zero3;
          eyebrowIntensity := 0; targetEyebrowIntensity := 0 |};
     body :=
       {| leftArmRotation := {| x := 0; y := 0; z := -1.2 |};
          rightArmRotation := {| x := 0; y := 0; z := 1.2 |};
          targetLeftArmRotation := {| x := 0; y := 0; z := -1.2 |};
          targetRightArmRotation := {| x := 0; y := 0; z := 1.2 |};
          leftLowerArmRotation := -0.2; rightLowerArmRotation := -0.2;
          targetLeftLowerArmRotation := -0.2;
          targetRightLowerArmRotation := -0.2;
          handRotation := {| left := zero3; right := zero3 |};
          targetHandRotation := {| left := zero3; right := zero3 |} |} |}.

(** The speech state and the bands the rest of the frame reads
    (lines 295-324). *)
Definition frameSpeech (deltaTime : R) (a : AudioRead) (st : State)
    : Speech * Bands :=
  let '(sp, bands) := audioAnalysis st.(speech) a in
  (smoothSpeech sp deltaTime, bands).

(** Lines 420-745: the block run when the rig has a humanoid. *)
Definition humanoidStep (isSpeaking : bool)
    (speechIntensity deltaTime elapsedTime : R) (rnd : Random)
    (g : GestureState) (b : BodyState) (bones : gmap string Vec3)
    : GestureState * BodyState * gmap string Vec3 :=
  let bones1 := breathe isSpeaking speechIntensity elapsedTime bones in
  let '(g', bones2) :=
    gestureStep isSpeaking speechIntensity deltaTime elapsedTime rnd g bones1 in
  let b' :=
    smoothArms deltaTime (armTargets isSpeaking speechIntensity elapsedTime b) in
  let bones3 := applyArms b' bones2 in
  let bones4 := shoulders isSpeaking speechIntensity deltaTime elapsedTime bones3 in
  let bones5 := swayHips elapsedTime bones4 in
  (g', b',
   fingers isSpeaking speechIntensity deltaTime elapsedTime bones5).

(** One call of [animate] with a loaded model.  [vrm.update] and the
    rendering of the scene read the rig and are outside the model. *)
Definition animateFrame (deltaTime elapsedTime : R) (a : AudioRead)
    (rnd : Random) (st : State) (vrm : Rig) : State * Rig :=
  let '(sp, bands) := frameSpeech deltaTime a st in
  let speaking := sp.(isSpeaking) in
  let m :=
    advanceExpression deltaTime
      (selectExpression speaking elapsedTime rnd st.(mood)) in
  let nextBlinkTime' := reseedBlink speaking elapsedTime rnd st.(nextBlinkTime) in
  let targetMouth := mouthTargets speaking bands in
  let mouth := smoothMouth st.(mouthShapes) targetMouth deltaTime in
  let targetExpr :=
    expressionTargets speaking m sp.(speechIntensity)
      (blinkTarget elapsedTime nextBlinkTime') in
  let expr := smoothExpressions st.(expressionValues) targetExpr deltaTime in
  let em1 := applyExpressions mouth expr <$> vrm.(expressionManager) in
  match vrm.(humanoid) with
  | None =>
      ({| speech := sp; mood := m; nextBlinkTime := nextBlinkTime';
          mouthShapes := mouth; targetMouthShapes := targetMouth;
          expressionValues := expr; targetExpressionValues := targetExpr;
          gesture := st.(gesture); body := st.(body) |},
       {| expressionManager := em1; humanoid := None |})
  | Some bones =>
      let '(g, b, bones') :=
        humanoidStep speaking sp.(speechIntensity) deltaTime elapsedTime rnd
          st.(gesture) st.(body) bones in
      ({| speech := sp; mood := m; nextBlinkTime := nextBlinkTime';
          mouthShapes := mouth; targetMouthShapes := targetMouth;
          expressionValues := expr; targetExpressionValues := targetExpr;
          gesture := g; body := b |},
       {| expressionManager :=
            applyEyebrow speaking m.(currentExpression) g.(eyebrowIntensity)
              <$> em1;
          humanoid := Some bones' |})
  end.

(** [animate]: nothing is animated before the model is loaded. *)
Definition animate (deltaTime elapsedTime : R) (a : AudioRead) (rnd : Random)
    (st : State) (vrm : option Rig) : State * option Rig :=
  match vrm with
  | None => (st, None)
  | Some rig =>
      let '(st', rig') := animateFrame deltaTime elapsedTime a rnd st rig in
      (st', Some rig')
  end.

(** A frame as the loop supplies it. *)
Record Frame : Type := mkFrame {
  deltaTime : R;
  elapsedTime : R;
  audio : AudioRead;
  random : Random
}.

Definition step (st : State * Rig) (f : Frame) : State * Rig :=
  animateFrame f.(deltaTime) f.(elapsedTime) f.(audio) f.(random)
    (fst st) (snd st).

(** The states the loop reaches from the initial state on a rig. *)
Inductive reachable (rig0 : Rig) : State * Rig -> Prop :=
| reach_init r : unit_draw r -> reachable rig0 (initialState r, rig0)
| reach_step st f : reachable rig0 st -> reachable rig0 (step st f).

(** ** Clean-up (lines 762-792)

    The resources the effect set up, with the state the browser keeps of
    each.  The handles [audioSource], [audioContext] and [vrm] are variables
    of the effect: clean-up tests them and never clears them. *)

Inductive Exception : Type := NotFoundError.

Inductive Outcome (A : Type) : Type :=
| Returns (a : A)
| Throws (e : Exception).
Arguments Returns {A} a.
Arguments Throws {A} e.

Definition andThen {A B : Type} (o : Outcome A) (k : A -> Outcome B)
    : Outcome B :=
  match o with Returns a => k a | Throws e => Throws e end.

Notation "o >>> k" := (andThen o k) (at level 60, right associativity).

Record Resources : Type := mkResources {
  resizeListener : bool;         (* [handleResize] is registered *)
  controlsListeners : bool;      (* the listeners of the orbit controls *)
  audioSource : option bool;     (* the source node, connected or not *)
  audioContext : option bool;    (* the audio context, running or closed *)
  vrmScene : option bool;        (* the model, its GPU resources live or not *)
  sceneMeshes : bool;            (* geometries and materials of the scene *)
  rendererLive : bool;
  canvasInContainer : bool       (* [renderer.domElement] is a child *)
}.

(** [container.removeChild(renderer.domElement)]: the DOM throws
    [NotFoundError] when the node is not a child of the container. *)
Definition removeChild (w : Resources) : Outcome Resources :=
  if w.(canvasInContainer) then
    Returns
      {| resizeListener := w.(resizeListener);
         controlsListeners := w.(controlsListeners);
         audioSource := w.(audioSource);
         audioContext := w.(audioContext);
         vrmScene := w.(vrmScene);
         sceneMeshes := w.(sceneMeshes);
         rendererLive := w.(rendererLive);
         canvasInContainer := false |}
  else Throws NotFoundError.

(** Lines 764-790: the releases that do not throw, in the order of the
    source: listeners, audio source, audio context, model, meshes,
    renderer. *)
Definition release (w : Resources) : Resources :=
  {| resizeListener := false;
     controlsListeners := false;
     audioSource := (fun _ => false) <$> w.(audioSource);
     audioContext := (fun _ => false) <$> w.(audioContext);
     vrmScene := (fun _ => false) <$> w.(vrmScene);
     sceneMeshes := false;
     rendererLive := false;
     canvasInContainer := w.(canvasInContainer) |}.

Definition teardown (w : Resources) : Outcome Resources :=
  Returns (release w) >>> removeChild.

Definition liveAudioNode (w : Resources) : bool :=
  bool_decide (w.(audioSource) = Some true)
  || bool_decide (w.(audioContext) = Some true).

(** ** Orbit controls (lines 10-87)

    The fields of [SimpleOrbitControls] that the handlers read and write,
    and the listeners it has registered.  The camera follows from
    [spherical] through [update]. *)

Record Spherical : Type := mkSpherical { radius : R; phi : R; theta : R }.

Record Vec2 : Type := mkVec2 { px : R; py : R }.

Record Controls : Type := mkControls {
  spherical : Spherical;
  isDragging : bool;
  rotateStart : Vec2;
  rotateDelta : Vec2;
  elementListeners : bool;   (* mousedown and wheel, on the canvas *)
  documentListeners : bool   (* mousemove and mouseup, on the document *)
}.

Definition minDistance : R := 0.5.
Definition maxDistance : R := 5.

(** Lines 30-36. *)
Definition onMouseDown (clientX clientY : R) (c : Controls) : Controls :=
  {| spherical := c.(spherical);
     isDragging := true;
     rotateStart := {| px := clientX; py := clientY |};
     rotateDelta := c.(rotateDelta);
     elementListeners := c.(elementListeners);
     documentListeners := true |}.

(** Lines 38-51. *)
Definition onMouseMove (clientX clientY : R) (c : Controls) : Controls :=
  if negb c.(isDragging) then c
  else
    let delta :=
      {| px := clientX - c.(rotateStart).(px);
         py := clientY - c.(rotateStart).(py) |} in
    let rotateSpeed := 0.005 in
    let phi' := c.(spherical).(phi) - delta.(py) * rotateSpeed in
    {| spherical :=
         {| radius := c.(spherical).(radius);
            phi := Rmax 0.1 (Rmin (PI - 0.1) phi');
            theta := c.(spherical).(theta) - delta.(px) * rotateSpeed |};
       isDragging := c.(isDragging);
       rotateStart := {| px := clientX; py := clientY |};
       rotateDelta := delta;
       elementListeners := c.(elementListeners);
       documentListeners := c.(documentListeners) |}.

(** Lines 53-57. *)
Definition onMouseUp (c : Controls) : Controls :=
  {| spherical := c.(spherical);
     isDragging := false;
     rotateStart := c.(rotateStart);
     rotateDelta := c.(rotateDelta);
     elementListeners := c.(elementListeners);
     documentListeners := false |}.

(** Lines 59-67. *)
Definition onWheel (deltaY : R) (c : Controls) : Controls :=
  {| spherical :=
       {| radius :=
            Rmax minDistance
              (Rmin maxDistance (c.(spherical).(radius) + deltaY * 0.001));
          phi := c.(spherical).(phi);
          theta := c.(spherical).(theta) |};
     isDragging := c.(isDragging);
     rotateStart := c.(rotateStart);
     rotateDelta := c.(rotateDelta);
     elementListeners := c.(elementListeners);
     documentListeners := c.(documentListeners) |}.

(** Lines 81-86. *)
Definition dispose (c : Controls) : Controls :=
  {| spherical := c.(spherical);
     isDragging := c.(isDragging);
     rotateStart := c.(rotateStart);
     rotateDelta := c.(rotateDelta);
     elementListeners := false;
     documentListeners := false |}.

(** The events of the browser; one reaches its handler when the listener
    is registered. *)
Inductive MouseEvent : Type :=
| MouseDown (clientX clientY : R)
| MouseMove (clientX clientY : R)
| MouseUp
| Wheel (deltaY : R).

Definition dispatch (c : Controls) (ev : MouseEvent) : Controls :=
  match ev with
  | MouseDown cx cy => if c.(elementListeners) then onMouseDown cx cy c else c
  | Wheel dy => if c.(elementListeners) then onWheel dy c else c
  | MouseMove cx cy => if c.(documentListeners) then onMouseMove cx cy c else c
  | MouseUp => if c.(documentListeners) then onMouseUp c else c
  end.

(** Lines 22-28: the constructor registers the listeners of the canvas. *)
Definition newControls (s : Spherical) : Controls :=
  {| spherical := s;
     isDragging := false;
     rotateStart := {| px := 0; py := 0 |};
     rotateDelta := {| px := 0; py := 0 |};
     elementListeners := true;
     documentListeners := false |}.

(** ** Runs of frames *)

Definition isByte (b : Z) : Prop := (0 <= b <= 255)%Z.

(** A frame as the browser gives it: time does not run backwards, the
    draws are draws, and a spectrum is an array of bytes with three bins
    at least. *)
Definition validFrame (f : Frame) : Prop :=
  0 <= deltaTime f /\ Random_ok (random f) /\
  match audio f with
  | Spectrum dataArray => Forall isByte dataArray /\ (3 <= length dataArray)%nat
  | _ => True
  end.

(** A frame that reads no spectrum. *)
Definition deafFrame (f : Frame) : Prop :=
  match audio f with Spectrum _ => False | _ => True end.

Definition run (s : State * Rig) (frames : list Frame) : State * Rig :=
  foldl step s frames.

(** The states reached from the initial state through frames that all
    satisfy [ok]. *)
Inductive reachableVia (ok : Frame -> Prop) (rig0 : Rig)
    : State * Rig -> Prop :=
| via_init r : unit_draw r -> reachableVia ok rig0 (initialState r, rig0)
| via_step s f :
    reachableVia ok rig0 s -> ok f -> reachableVia ok rig0 (step s f).

(** The names [applyExpressions] sets. *)
Definition appliedExpressions : list string :=
  [ "aa"; "ih"; "ou"; "oh"; "blink"; "happy"; "surprised"; "relaxed";
    "neutral" ].

Definition unit_range (a : R) : Prop := 0 <= a <= 1.

(** ** Ranges of the state *)

Definition speechRange (sp : Speech) : Prop :=
  0 <= speechIntensity sp <= 1 /\ 0 <= targetSpeechIntensity sp <= 1.

Definition moodRange (m : MoodState) : Prop :=
  0 <= expressionTransitionProgress m <= 1 /\
  0 <= targetExpressionIntensity m <= 0.6 /\
  0 <= expressionIntensity m <= 0.6 /\
  currentExpression m <> Undefined.

Definition gestureRange (g : GestureState) : Prop :=
  0 <= gestureTransitionProgress g <= 1 /\
  (0 <= currentGesture g <= 6)%Z /\
  0 <= eyebrowIntensity g <= 0.2 /\
  0 <= targetEyebrowIntensity g <= 0.2.

Definition expressionRange (ev : ExpressionValues) : Prop :=
  unit_range (happy ev) /\ unit_range (surprised ev) /\
  unit_range (relaxed ev) /\ unit_range (neutral ev) /\
  unit_range (blink ev) /\ sad ev = 0 /\ angry ev = 0.

Definition mouthRange (mo : MouthShapes) : Prop :=
  0 <= aa mo /\ 0 <= ih mo /\ 0 <= ou mo /\ 0 <= oh mo.

Definition inRange (st : State) : Prop :=
  speechRange (speech st) /\ moodRange (mood st) /\
  gestureRange (gesture st) /\ expressionRange (expressionValues st) /\
  mouthRange (mouthShapes st).

(** The box a vector lies in. *)
Definition within (v : Vec3) (cx rx cy ry cz rz : R) : Prop :=
  cx - rx <= x v <= cx + rx /\ cy - ry <= y v <= cy + ry /\
  cz - rz <= z v <= cz + rz.

Definition armBox (left_ : bool) (v : Vec3) : Prop :=
  within v 0 0.288 0 0.168 (if left_ then -1.2 else 1.2) 0.144.

Definition handBox (v : Vec3) : Prop := within v 0 0.096 0 0.084 0 0.084.

Definition lowerArmBox (a : R) : Prop := -0.2 - 0.264 <= a <= -0.2 + 0.264.

Definition bodyRange (b : BodyState) : Prop :=
  armBox true (leftArmRotation b) /\ armBox false (rightArmRotation b) /\
  lowerArmBox (leftLowerArmRotation b) /\
  lowerArmBox (rightLowerArmRotation b) /\
  handBox (left (handRotation b)) /\ handBox (right (handRotation b)).

Definition bodyTargetRange (b : BodyState) : Prop :=
  armBox true (targetLeftArmRotation b) /\
  armBox false (targetRightArmRotation b) /\
  lowerArmBox (targetLeftLowerArmRotation b) /\
  lowerArmBox (targetRightLowerArmRotation b) /\
  handBox (left (targetHandRotation b)) /\
  handBox (right (targetHandRotation b)).

(** The state of orbit controls that are set up and in range. *)
Definition controlsOk (k : Controls) : Prop :=
  minDistance <= radius (spherical k) <= maxDistance /\
  0.1 <= phi (spherical k) <= PI - 0.1 /\
  documentListeners k = isDragging k /\ elementListeners k = true.

(** The speaking branch of the gesture controller over successive frames
    that trigger no new gesture, each with its speech intensity, duration
    and time. *)
Definition speakingRun (g : GestureState) (frames : list (R * R * R))
    : GestureState :=
  foldl (fun g '(si, dt, e) => speakingGesture si dt e g) g frames.

Definition advanceRun (m : MoodState) (dts : list R) : MoodState :=
  foldl (fun m dt => advanceExpression dt m) m dts.

(** ** Derived notions and sample inputs *)

(** A frame that keeps a silent avatar silent: it reads no spectrum, or a
    spectrum whose volume does not pass the entry threshold. *)
Definition quietFrame (f : Frame) : Prop :=
  match audio f with
  | Spectrum dataArray => audioVolume (analyse dataArray) <= 0.025
  | _ => True
  end.

(** The rotation about z of a bone of the rig, when the rig has it. *)
Definition boneZ (rig : Rig) (name : string) : option R :=
  bones ← humanoid rig; r ← bones !! name; Some (z r).


(** The signal of the end-to-end scenario. *)
Definition scenario : list R := [0; 0; 0.03; 0.03; 0.03; 0.02; 0.016; 0.01].

Definition frame0 : Frame :=
  {| deltaTime := 0; elapsedTime := 0; audio := NoAnalyser;
     random :=
       {| rndExpression := 0; rndExpressionIntensity := 0;
          rndExpressionTime := 0; rndBlink := 0;
          rndGesture := 0; rndGestureTime := 0 |} |}.

Definition emptyRig : Rig := {| expressionManager := None; humanoid := None |}.

(** The fields of the gesture state that selection sets. *)
Definition gestureTimer (g : GestureState) : R * Z * R * R * Z * Vec3 :=
  (gesturePhase g, currentGesture g, nextGestureTime g,
   gestureTransitionProgress g, previousGesture g, previousHeadRotation g).

(** Lines 446-548 without the smoothing of line 551. *)
Definition gestureBranch (isSpeaking : bool)
    (speechIntensity deltaTime elapsedTime : R) (rnd : Random)
    (g : GestureState) : GestureState :=
  if isSpeaking
  then speakingGesture speechIntensity deltaTime elapsedTime
         (selectGesture elapsedTime rnd g)
  else idleGesture elapsedTime g.

Definition draws (r : R) : Random :=
  {| rndExpression := r; rndExpressionIntensity := r; rndExpressionTime := r;
     rndBlink := r; rndGesture := r; rndGestureTime := r |}.

(** A spectrum of 128 bins, as [fftSize = 256] gives, all at one level. *)
Definition flat (level : Z) : list Z := replicate 128 level.

Definition headRig : Rig :=
  {| expressionManager := Some ∅;
     humanoid := Some {[ "head" := zero3 ]} |}.

Definition idleFrame : Frame :=
  {| deltaTime := 1; elapsedTime := 1; audio := Spectrum (flat 0);
     random := draws 0.5 |}.

Definition entryFrame : Frame :=
  {| deltaTime := 0.5; elapsedTime := 1.5; audio := Spectrum (flat 255);
     random := draws 0.5 |}.

Definition headPresent (rig : Rig) : bool :=
  match humanoid rig with
  | Some bones => hasBone "head" bones
  | None => false
  end.

(** What holds of every state the loop reaches. *)
Definition settled (s : State * Rig) : Prop :=
  (currentExpression (mood (fst s)) = Neutral ->
   targetExpressionIntensity (mood (fst s)) = 0) /\
  (headPresent (snd s) = false -> currentGesture (gesture (fst s)) = 0%Z).

(** The bones the humanoid block writes besides the fingers. *)
Definition otherBones : list string :=
  [ "spine"; "chest"; "head"; "neck";
    "leftUpperArm"; "rightUpperArm"; "leftLowerArm"; "rightLowerArm";
    "leftHand"; "rightHand"; "leftShoulder"; "rightShoulder"; "hips" ].

Definition bodyRig : Rig :=
  {| expressionManager := None;
     humanoid := Some {[ "spine" := zero3 ]} |}.

Definition throwFrame : Frame :=
  {| deltaTime := 0.5; elapsedTime := 2; audio := ReadThrows;
     random := draws 0.5 |}.

(** A mounted scene with its audio pipeline. *)
Definition mounted : Resources :=
  {| resizeListener := true; controlsListeners := true;
     audioSource := Some true; audioContext := Some true;
     vrmScene := Some true; sceneMeshes := true;
     rendererLive := true; canvasInContainer := true |}.

(** * Properties *)

(** ** Numbers *)

Lemma Rgtb_true a b : b < a -> Rgtb a b = true.
Proof. intros H. unfold Rgtb. destruct (Rlt_dec b a); [reflexivity | lra]. Qed.

Lemma Rgtb_false a b : a <= b -> Rgtb a b = false.
Proof. intros H. unfold Rgtb. destruct (Rlt_dec b a); [lra | reflexivity]. Qed.

Lemma Rltb_true a b : a < b -> Rltb a b = true.
Proof. intros H. unfold Rltb. destruct (Rlt_dec a b); [reflexivity | lra]. Qed.

Lemma Rltb_false a b : b <= a -> Rltb a b = false.
Proof. intros H. unfold Rltb. destruct (Rlt_dec a b); [lra | reflexivity]. Qed.

Lemma Rgeb_true a b : b <= a -> Rgeb a b = true.
Proof. intros H. unfold Rgeb. destruct (Rle_dec b a); [reflexivity | lra]. Qed.

Lemma Rgeb_false a b : a < b -> Rgeb a b = false.
Proof. intros H. unfold Rgeb. destruct (Rle_dec b a); [lra | reflexivity]. Qed.

Lemma Rgtb_spec a b : Rgtb a b = true <-> b < a.
Proof.
  split; [| apply Rgtb_true].
  unfold Rgtb. destruct (Rlt_dec b a); [tauto | discriminate].
Qed.

Lemma Rgeb_spec a b : Rgeb a b = true <-> b <= a.
Proof.
  split; [| apply Rgeb_true].
  unfold Rgeb. destruct (Rle_dec b a); [tauto | discriminate].
Qed.

Lemma Math_pow_pos b e : 0 < b -> Math_pow b e = Rpower b e.
Proof. intros H. unfold Math_pow. destruct (Rlt_dec 0 b); [reflexivity | lra]. Qed.

Lemma Math_pow_nat b (n : nat) : Math_pow b (INR n) = b ^ n.
Proof.
  unfold Math_pow. destruct (Rlt_dec 0 b) as [Hb | Hb].
  - apply Rpower_pow, Hb.
  - rewrite Int_part_INR, <- INR_IZR_INZ.
    destruct (Req_dec_T (INR n) (INR n)) as [_ | Hn]; [| congruence].
    symmetry. apply pow_powerRZ.
Qed.

Lemma Math_pow_2 b : Math_pow b 2 = b * b.
Proof.
  replace 2 with (INR 2) by (simpl; lra).
  rewrite Math_pow_nat. simpl. ring.
Qed.

Lemma Math_pow_3 b : Math_pow b 3 = b * b * b.
Proof.
  replace 3 with (INR 3) by (simpl; lra).
  rewrite Math_pow_nat. simpl. ring.
Qed.

(** The decay [(1 - factor) ^ (deltaTime * 60)] of a smoothing step. *)
Lemma decay_bounds factor t :
  0 < factor < 1 -> 0 <= t -> 0 < Rpower (1 - factor) t <= 1.
Proof.
  intros Hf Ht. unfold Rpower. split; [apply exp_pos |].
  assert (Hln : ln (1 - factor) < 0).
  { rewrite <- ln_1. apply ln_increasing; lra. }
  destruct (Req_dec_T t 0) as [-> | Hne].
  - rewrite Rmult_0_l, exp_0. lra.
  - assert (Hneg : t * ln (1 - factor) < 0) by nra.
    apply exp_increasing in Hneg. rewrite exp_0 in Hneg. lra.
Qed.

Lemma smoothLerp_decay current target factor dt :
  0 < factor < 1 ->
  smoothLerp current target factor dt
  = target + (current - target) * Rpower (1 - factor) (dt * 60).
Proof.
  intros Hf. unfold smoothLerp. rewrite Math_pow_pos by lra. ring.
Qed.

(** ** Speech classification *)

Lemma detectSpeech_speaking b v :
  speakingThreshold b < v -> detectSpeech b v = (true, Rmin (v * 2) 1).
Proof. intros H. unfold detectSpeech. rewrite Rgtb_true by exact H. reflexivity. Qed.

Lemma detectSpeech_silent b v :
  v <= speakingThreshold b -> detectSpeech b v = (false, 0).
Proof. intros H. unfold detectSpeech. rewrite Rgtb_false by exact H. reflexivity. Qed.

Lemma detectSpeech_flag b v :
  fst (detectSpeech b v) = true <-> speakingThreshold b < v.
Proof. unfold detectSpeech. cbn [fst]. apply Rgtb_spec. Qed.

Lemma detectSpeech_target b v :
  snd (detectSpeech b v)
  = if fst (detectSpeech b v) then Rmin (v * 2) 1 else 0.
Proof. reflexivity. Qed.

Lemma detectRun_stays_speaking (vs : list R) :
  Forall (fun v => 0.015 < v) vs ->
  Forall (fun r => fst r = true) (detectRun true vs).
Proof.
  induction 1 as [| v vs Hv _ IH]; cbn [detectRun]; [constructor |].
  rewrite detectSpeech_speaking by exact Hv. constructor; [reflexivity | exact IH].
Qed.

Ltac detect_eval :=
  repeat (cbn [detectRun fst];
          first [ rewrite detectSpeech_speaking by (cbn; lra)
                | rewrite detectSpeech_silent by (cbn; lra) ]);
  cbn [detectRun].

Lemma scenario_run :
  detectRun false scenario
  = [ (false, 0); (false, 0); (true, 0.06); (true, 0.06); (true, 0.06);
      (true, 0.04); (true, 0.032); (false, 0) ].
Proof.
  unfold scenario. detect_eval.
  rewrite !Rmin_left by lra.
  replace (0.03 * 2) with 0.06 by lra.
  replace (0.02 * 2) with 0.04 by lra.
  replace (0.016 * 2) with 0.032 by lra.
  reflexivity.
Qed.

(** C1, as amended.  The classifier enters Speaking from Silent exactly
    when the volume is above 0.025 and stays Speaking exactly when it is
    above 0.015; a signal that stays between 0.018 and 0.022 never leaves
    Speaking; 0.03, 0.016, 0.01 gives Speaking, Speaking, Silent; and the
    scenario signal gives the flags F, F, T, T, T, T, T, F with the
    intensity target [min (volume * 2) 1] on the speaking frames, that is
    0.06, 0.06, 0.06, 0.04, 0.032, and 0 on the silent ones. *)
Theorem C1_hysteresis (vs : list R) :
  Forall (fun v => 0.018 <= v <= 0.022) vs ->
  (forall v, fst (detectSpeech false v) = true <-> 0.025 < v) /\
  (forall v, fst (detectSpeech true v) = true <-> 0.015 < v) /\
  (forall b v,
     snd (detectSpeech b v)
     = if fst (detectSpeech b v) then Rmin (v * 2) 1 else 0) /\
  Forall (fun r => fst r = true) (detectRun true vs) /\
  Forall (fun v => fst (detectSpeech false v) = false) vs /\
  map fst (detectRun false [0.03; 0.016; 0.01]) = [true; true; false] /\
  map fst (detectRun false scenario)
  = [false; false; true; true; true; true; true; false] /\
  map snd (detectRun false scenario)
  = [0; 0; 0.06; 0.06; 0.06; 0.04; 0.032; 0].
Proof.
  intros Hvs. repeat apply conj.
  - apply (detectSpeech_flag false).
  - apply (detectSpeech_flag true).
  - apply detectSpeech_target.
  - apply detectRun_stays_speaking.
    eapply Forall_impl; [exact Hvs |]. cbn. intros v Hv. lra.
  - eapply Forall_impl; [exact Hvs |]. intros v Hv. cbv beta in Hv.
    rewrite detectSpeech_silent by (cbn; lra). reflexivity.
  - detect_eval. reflexivity.
  - rewrite scenario_run. reflexivity.
  - rewrite scenario_run. reflexivity.
Qed.

Lemma C1_hysteresis_witness :
  Forall (fun r => fst r = true)
    (detectRun true [0.018; 0.022; 0.018; 0.022]).
Proof.
  refine (proj1 (proj2 (proj2 (proj2
            (C1_hysteresis [0.018; 0.022; 0.018; 0.022] _))))).
  repeat constructor; lra.
Defined.

(** C1, as stated, fails: on the sixth frame of the scenario the avatar is
    speaking and the intensity target is 0.04, not 0.06. *)
Lemma C1_target_counterexample :
  detectRun false scenario !! 5%nat = Some (true, 0.04) /\ 0.04 <> 0.06.
Proof. rewrite scenario_run. split; [reflexivity | lra]. Qed.

(** ** Smoothing *)

Lemma smoothLerp_between current target factor dt :
  0 < factor < 1 -> 0 <= dt ->
  (current <= target ->
   current <= smoothLerp current target factor dt <= target) /\
  (target <= current ->
   target <= smoothLerp current target factor dt <= current).
Proof.
  intros Hf Hdt. rewrite smoothLerp_decay by exact Hf.
  assert (Hp := decay_bounds factor (dt * 60) Hf ltac:(lra)).
  split; intros Hle; nra.
Qed.

Lemma smoothRun_snoc current target factor dts dt :
  smoothRun current target factor (dts ++ [dt])
  = smoothLerp (smoothRun current target factor dts) target factor dt.
Proof.
  revert current. induction dts as [| d dts IH]; intros current; cbn.
  - reflexivity.
  - apply IH.
Qed.

Lemma smoothRun_decay factor target dts :
  0 < factor < 1 ->
  forall current,
    smoothRun current target factor dts
    = target + (current - target) * Rpower (1 - factor) (60 * Rsum dts).
Proof.
  intros Hf. induction dts as [| d dts IH]; intros current; cbn [smoothRun].
  - change (Rsum []) with 0. rewrite Rmult_0_r, Rpower_O by lra. ring.
  - rewrite IH, smoothLerp_decay by exact Hf.
    change (Rsum (d :: dts)) with (d + Rsum dts).
    replace (60 * (d + Rsum dts)) with (d * 60 + 60 * Rsum dts) by ring.
    rewrite Rpower_plus. ring.
Qed.

Lemma Rsum_nonneg dts : Forall (fun d => 0 <= d) dts -> 0 <= Rsum dts.
Proof.
  induction 1 as [| d dts Hd _ IH].
  - cbn. lra.
  - change (Rsum (d :: dts)) with (d + Rsum dts). lra.
Qed.

Lemma smoothRun_between factor target dts :
  0 < factor < 1 -> Forall (fun d => 0 <= d) dts ->
  forall current,
    (current <= target ->
     current <= smoothRun current target factor dts <= target) /\
    (target <= current ->
     target <= smoothRun current target factor dts <= current).
Proof.
  intros Hf Hd current. rewrite smoothRun_decay by exact Hf.
  assert (Hs := Rsum_nonneg dts Hd).
  assert (Hp := decay_bounds factor (60 * Rsum dts) Hf ltac:(lra)).
  split; intros Hle; nra.
Qed.

Lemma smoothTrace_below factor target dts :
  0 < factor < 1 -> Forall (fun d => 0 <= d) dts ->
  forall current, current <= target ->
    Forall (fun c => c <= target) (smoothTrace current target factor dts).
Proof.
  intros Hf. induction 1 as [| d dts Hd _ IH]; intros current Hle; cbn.
  - constructor.
  - destruct (smoothLerp_between current target factor d Hf Hd) as [Hb _].
    specialize (Hb Hle). constructor; [lra | apply IH; lra].
Qed.

Lemma smoothTrace_above factor target dts :
  0 < factor < 1 -> Forall (fun d => 0 <= d) dts ->
  forall current, target <= current ->
    Forall (fun c => target <= c) (smoothTrace current target factor dts).
Proof.
  intros Hf. induction 1 as [| d dts Hd _ IH]; intros current Hle; cbn.
  - constructor.
  - destruct (smoothLerp_between current target factor d Hf Hd) as [_ Hb].
    specialize (Hb Hle). constructor; [lra | apply IH; lra].
Qed.



Lemma decay_antitone factor s t :
  0 < factor < 1 -> s <= t ->
  Rpower (1 - factor) t <= Rpower (1 - factor) s.
Proof.
  intros Hf Hst.
  replace t with (s + (t - s)) by ring. rewrite Rpower_plus.
  assert (Hs : 0 < Rpower (1 - factor) s) by apply exp_pos.
  assert (Hd := decay_bounds factor (t - s) Hf ltac:(lra)).
  nra.
Qed.

Lemma decay_five_seconds factor :
  0 < factor < 1 -> Rpower (1 - factor) 300 = (1 - factor) ^ 300.
Proof.
  intros Hf. rewrite <- Rpower_pow by lra. f_equal.
  rewrite INR_IZR_INZ. reflexivity.
Qed.

(** Bernoulli's inequality, for a factor that shrinks. *)
Lemma pow_shrink_lower h n : 0 <= h <= 1 -> 1 - INR n * h <= (1 - h) ^ n.
Proof.
  intros Hh. induction n as [| n IH].
  - cbn. lra.
  - rewrite S_INR. cbn [pow].
    assert (Hn : 0 <= INR n) by apply pos_INR.
    nra.
Qed.




(** ** What a frame leaves in the state *)

Ltac frame_cases dt e a rnd st vrm :=
  unfold animateFrame;
  destruct (frameSpeech dt a st) as [sp bands];
  destruct (humanoid vrm) as [bones |];
  [ destruct (humanoidStep (isSpeaking sp) (speechIntensity sp) dt e rnd
                (gesture st) (body st) bones) as [[g b] bones'] | ];
  cbn.

Lemma animateFrame_speech dt e a rnd st vrm :
  speech (fst (animateFrame dt e a rnd st vrm)) = fst (frameSpeech dt a st).
Proof. frame_cases dt e a rnd st vrm; reflexivity. Qed.

Lemma animateFrame_mood dt e a rnd st vrm :
  mood (fst (animateFrame dt e a rnd st vrm))
  = advanceExpression dt
      (selectExpression (isSpeaking (fst (frameSpeech dt a st))) e rnd
         (mood st)).
Proof. frame_cases dt e a rnd st vrm; reflexivity. Qed.

Lemma animateFrame_nextBlinkTime dt e a rnd st vrm :
  nextBlinkTime (fst (animateFrame dt e a rnd st vrm))
  = reseedBlink (isSpeaking (fst (frameSpeech dt a st))) e rnd
      (nextBlinkTime st).
Proof. frame_cases dt e a rnd st vrm; reflexivity. Qed.

Lemma expressionTargets_blink speaking m si blinkT :
  blink (expressionTargets speaking m si blinkT) = blinkT.
Proof.
  unfold expressionTargets.
  destruct speaking; [destruct (currentExpression m) |]; reflexivity.
Qed.

Lemma animateFrame_blink_target dt e a rnd st vrm :
  blink (targetExpressionValues (fst (animateFrame dt e a rnd st vrm)))
  = blinkTarget e (nextBlinkTime (fst (animateFrame dt e a rnd st vrm))).
Proof.
  frame_cases dt e a rnd st vrm; apply expressionTargets_blink.
Qed.

(** ** Blinking *)

Lemma easeInOutCubic_unit t : 0 <= t <= 1 -> 0 <= easeInOutCubic t <= 1.
Proof.
  intros Ht. unfold easeInOutCubic, Rltb.
  destruct (Rlt_dec t 0.5) as [Hlt | Hge].
  - assert (H2 : 0 <= t * t <= 0.25) by nra. nra.
  - rewrite Math_pow_3.
    assert (Hu : 0 <= -2 * t + 2 <= 1) by lra.
    assert (H2 : 0 <= (-2 * t + 2) * (-2 * t + 2) <= 1) by nra.
    nra.
Qed.

Lemma blinkProgress_unit e n : 0 <= blinkProgress e n <= 1.
Proof.
  unfold blinkProgress.
  assert (H := Rabs_pos (e - n + 0.15)).
  unfold Rmax. destruct (Rle_dec 0 (1 - Rabs (e - n + 0.15) / 0.15)); lra.
Qed.

(** The pulse is a triangle over the 0.3 seconds that end at
    [nextBlinkTime]. *)
Lemma blinkProgress_outside e n :
  e <= n - 0.3 \/ n <= e -> blinkProgress e n = 0.
Proof.
  intros H. unfold blinkProgress, Rmax, Rabs.
  destruct (Rcase_abs (e - n + 0.15));
    destruct (Rle_dec 0 _); lra.
Qed.

Lemma blinkProgress_rising e n :
  n - 0.3 <= e <= n - 0.15 -> blinkProgress e n = (e - (n - 0.3)) / 0.15.
Proof.
  intros H. unfold blinkProgress, Rmax, Rabs.
  destruct (Rcase_abs (e - n + 0.15));
    destruct (Rle_dec 0 _); lra.
Qed.

Lemma blinkProgress_falling e n :
  n - 0.15 <= e <= n -> blinkProgress e n = (n - e) / 0.15.
Proof.
  intros H. unfold blinkProgress, Rmax, Rabs.
  destruct (Rcase_abs (e - n + 0.15));
    destruct (Rle_dec 0 _); lra.
Qed.

Lemma blinkProgress_symmetric n d :
  blinkProgress (n - 0.15 + d) n = blinkProgress (n - 0.15 - d) n.
Proof.
  unfold blinkProgress.
  replace (n - 0.15 + d - n + 0.15) with d by ring.
  replace (n - 0.15 - d - n + 0.15) with (- d) by ring.
  rewrite Rabs_Ropp. reflexivity.
Qed.

Lemma easeInOutCubic_0 : easeInOutCubic 0 = 0.
Proof. unfold easeInOutCubic. rewrite Rltb_true by lra. ring. Qed.

Lemma easeInOutCubic_1 : easeInOutCubic 1 = 1.
Proof.
  unfold easeInOutCubic. rewrite Rltb_false by lra. rewrite Math_pow_3. lra.
Qed.

Lemma reseedBlink_due speaking e rnd n :
  n <= e -> speaking = false ->
  reseedBlink speaking e rnd n = e + 2.5 + rndBlink rnd * 3.5.
Proof.
  intros Hdue ->. unfold reseedBlink. rewrite Rgeb_true by exact Hdue.
  reflexivity.
Qed.

Lemma reseedBlink_kept speaking e rnd n :
  e < n \/ speaking = true -> reseedBlink speaking e rnd n = n.
Proof.
  intros [Hlt | ->]; unfold reseedBlink.
  - rewrite Rgeb_false by exact Hlt. reflexivity.
  - rewrite andb_false_r. reflexivity.
Qed.

(** C4, as amended.  On a frame where the blink timer is due and the
    avatar is not speaking, [nextBlinkTime] is reseeded to now + 2.5 + 3.5 r,
    between 2.5 and 6 seconds ahead; on any other frame it is kept.  On
    every frame, speaking or not, the blink target is the eased triangular
    pulse of [nextBlinkTime], a value in [0,1]: the pulse is 0.3 seconds
    wide, it spans the 0.3 seconds that end at [nextBlinkTime], it is
    centred on [nextBlinkTime - 0.15], where it is 1, and it is 0 from
    [nextBlinkTime] on. *)
Theorem C4_blink_pulse (st : State) (rig : Rig) (f : Frame) :
  unit_draw (rndBlink (random f)) ->
  let st' := fst (step (st, rig) f) in
  let now := elapsedTime f in
  let speaking := isSpeaking (speech st') in
  (nextBlinkTime st <= now -> speaking = false ->
   nextBlinkTime st' = now + 2.5 + rndBlink (random f) * 3.5 /\
   now + 2.5 <= nextBlinkTime st' < now + 6) /\
  (now < nextBlinkTime st \/ speaking = true ->
   nextBlinkTime st' = nextBlinkTime st) /\
  blink (targetExpressionValues st') = blinkTarget now (nextBlinkTime st') /\
  0 <= blink (targetExpressionValues st') <= 1 /\
  (forall e n, e <= n - 0.3 \/ n <= e -> blinkTarget e n = 0) /\
  (forall e n, n - 0.3 <= e <= n - 0.15 ->
     blinkTarget e n = easeInOutCubic ((e - (n - 0.3)) / 0.15)) /\
  (forall e n, n - 0.15 <= e <= n ->
     blinkTarget e n = easeInOutCubic ((n - e) / 0.15)) /\
  (forall n, blinkTarget (n - 0.15) n = 1) /\
  (forall n d, blinkTarget (n - 0.15 + d) n = blinkTarget (n - 0.15 - d) n).
Proof.
  intros Hr st' now speaking.
  assert (Hspeech : speaking
            = isSpeaking (fst (frameSpeech (deltaTime f) (audio f) st))).
  { unfold speaking, st', step. cbn [fst snd].
    rewrite animateFrame_speech. reflexivity. }
  assert (Hnext : nextBlinkTime st'
            = reseedBlink speaking now (random f) (nextBlinkTime st)).
  { rewrite Hspeech. unfold st', step. cbn [fst snd].
    apply animateFrame_nextBlinkTime. }
  assert (Htarget : blink (targetExpressionValues st')
            = blinkTarget now (nextBlinkTime st')).
  { unfold st', step. cbn [fst snd]. apply animateFrame_blink_target. }
  repeat apply conj.
  - intros Hdue Hsilent.
    rewrite Hnext, (reseedBlink_due _ _ _ _ Hdue Hsilent).
    destruct Hr as [Hr0 Hr1]. repeat split; lra.
  - intros Hkeep. rewrite Hnext. apply reseedBlink_kept, Hkeep.
  - exact Htarget.
  - rewrite Htarget. apply easeInOutCubic_unit, blinkProgress_unit.
  - rewrite Htarget. apply easeInOutCubic_unit, blinkProgress_unit.
  - intros e n H. unfold blinkTarget.
    rewrite blinkProgress_outside by exact H. apply easeInOutCubic_0.
  - intros e n H. unfold blinkTarget.
    rewrite blinkProgress_rising by exact H. reflexivity.
  - intros e n H. unfold blinkTarget.
    rewrite blinkProgress_falling by exact H. reflexivity.
  - intros n. unfold blinkTarget.
    rewrite blinkProgress_falling by lra.
    replace ((n - (n - 0.15)) / 0.15) with 1 by lra.
    apply easeInOutCubic_1.
  - intros n d. unfold blinkTarget.
    rewrite blinkProgress_symmetric. reflexivity.
Qed.

Lemma C4_blink_pulse_witness :
  0 <= blink (targetExpressionValues
                (fst (step (initialState 0, emptyRig) frame0))) <= 1.
Proof.
  refine (proj1 (proj2 (proj2 (proj2
            (C4_blink_pulse (initialState 0) emptyRig frame0 _))))).
  unfold unit_draw. cbn. lra.
Defined.

(** C4, as stated, fails: the pulse is not centred on [nextBlinkTime].
    With [nextBlinkTime] = 3 the target is 0 at 3 and 1 at 2.85, and it
    differs 0.1 seconds before and 0.1 seconds after 3. *)
Lemma C4_blink_center_counterexample :
  blinkTarget 3 3 = 0 /\ blinkTarget 2.85 3 = 1 /\
  blinkTarget 2.9 3 = 23 / 27 /\ blinkTarget 3.1 3 = 0 /\
  blinkTarget 2.9 3 <> blinkTarget 3.1 3.
Proof.
  assert (H0 : blinkTarget 3 3 = 0).
  { unfold blinkTarget. rewrite blinkProgress_outside by lra.
    apply easeInOutCubic_0. }
  assert (H1 : blinkTarget 2.85 3 = 1).
  { unfold blinkTarget. rewrite blinkProgress_falling by lra.
    replace ((3 - 2.85) / 0.15) with 1 by lra. apply easeInOutCubic_1. }
  assert (H2 : blinkTarget 2.9 3 = 23 / 27).
  { unfold blinkTarget. rewrite blinkProgress_falling by lra.
    unfold easeInOutCubic. rewrite Rltb_false by lra.
    rewrite Math_pow_3. lra. }
  assert (H3 : blinkTarget 3.1 3 = 0).
  { unfold blinkTarget. rewrite blinkProgress_outside by lra.
    apply easeInOutCubic_0. }
  repeat apply conj; try assumption.
  rewrite H2, H3. lra.
Qed.

(** ** Gesture selection *)

Lemma Math_floor_spec a (k : Z) : Math_floor a = k <-> IZR k <= a < IZR k + 1.
Proof.
  unfold Math_floor. split.
  - intros <-. destruct (base_Int_part a). lra.
  - intros H. symmetry. apply Int_part_spec. lra.
Qed.

Lemma Math_floor_draw r (n : Z) :
  (0 < n)%Z -> unit_draw r -> (0 <= Math_floor (r * IZR n) < n)%Z.
Proof.
  intros Hn [Hr0 Hr1].
  destruct (proj1 (Math_floor_spec (r * IZR n) _) eq_refl) as [Hlo Hhi].
  assert (Hpos : 0 < IZR n) by (apply IZR_lt in Hn; exact Hn).
  split.
  - apply Z.lt_succ_r, lt_IZR. rewrite succ_IZR. nra.
  - apply lt_IZR. nra.
Qed.

Lemma hasBone_alter f k name (bones : gmap string Vec3) :
  hasBone name (alter f k bones) = hasBone name bones.
Proof.
  unfold hasBone. apply bool_decide_ext, lookup_alter_is_Some.
Qed.

Lemma hasBone_breathe s si e name bones :
  hasBone name (breathe s si e bones) = hasBone name bones.
Proof. unfold breathe. rewrite !hasBone_alter. reflexivity. Qed.

Lemma gestureStep_head s si dt e rnd g bones :
  hasBone "head" bones = true ->
  gestureTimer (fst (gestureStep s si dt e rnd g bones))
  = gestureTimer (gestureBranch s si dt e rnd g).
Proof.
  intros Hhead. unfold gestureStep, headGesture, gestureBranch.
  rewrite Hhead. cbn [fst]. destruct (hasBone "neck" _); reflexivity.
Qed.

Lemma gestureStep_no_head s si dt e rnd g bones :
  hasBone "head" bones = false ->
  gestureTimer (fst (gestureStep s si dt e rnd g bones)) = gestureTimer g.
Proof.
  intros Hhead. unfold gestureStep. rewrite Hhead. cbn [fst].
  destruct (hasBone "neck" _); reflexivity.
Qed.

Lemma speakingGesture_timer si dt e g :
  gestureTimer (speakingGesture si dt e g)
  = (gesturePhase g + dt, currentGesture g, nextGestureTime g,
     (if Rltb (gestureTransitionProgress g) 1
      then Rmin 1 (gestureTransitionProgress g + dt * 1.5)
      else gestureTransitionProgress g),
     previousGesture g, previousHeadRotation g).
Proof.
  unfold speakingGesture.
  destruct (gestureTargets _ _ _) as [[newHead newNeck] newEyebrow].
  reflexivity.
Qed.

Lemma animateFrame_gesture dt e a rnd st em bones :
  let sp := fst (frameSpeech dt a st) in
  gesture (fst (animateFrame dt e a rnd st
                  {| expressionManager := em; humanoid := Some bones |}))
  = fst (gestureStep (isSpeaking sp) (speechIntensity sp) dt e rnd
           (gesture st)
           (breathe (isSpeaking sp) (speechIntensity sp) e bones)).
Proof.
  unfold animateFrame, humanoidStep.
  destruct (frameSpeech dt a st) as [sp bands]. cbn [humanoid fst].
  destruct (gestureStep _ _ _ _ _ _ _) as [g' bones2]. reflexivity.
Qed.

Lemma animateFrame_no_humanoid dt e a rnd st em :
  gesture (fst (animateFrame dt e a rnd st
                  {| expressionManager := em; humanoid := None |}))
  = gesture st.
Proof.
  unfold animateFrame. destruct (frameSpeech dt a st) as [sp bands].
  reflexivity.
Qed.

(** What a frame does to the gesture timer on a rig with a head bone. *)
Lemma frame_gesture_timer dt e a rnd st em bones :
  hasBone "head" bones = true ->
  let sp := fst (frameSpeech dt a st) in
  gestureTimer
    (gesture (fst (animateFrame dt e a rnd st
                     {| expressionManager := em; humanoid := Some bones |})))
  = gestureTimer
      (gestureBranch (isSpeaking sp) (speechIntensity sp) dt e rnd (gesture st)).
Proof.
  intros Hhead sp. rewrite animateFrame_gesture.
  apply gestureStep_head. rewrite hasBone_breathe. exact Hhead.
Qed.

(** ** The shape of the rig is kept by a frame *)

Lemma hasBone_insert_present name k v (bones : gmap string Vec3) :
  hasBone k bones = true -> hasBone name (<[k := v]> bones) = hasBone name bones.
Proof.
  unfold hasBone. intros Hk%bool_decide_eq_true.
  apply bool_decide_ext. rewrite lookup_insert_is_Some.
  split.
  - intros [<- | [_ H]]; assumption.
  - intros H. destruct (decide (k = name)); [left | right]; auto.
Qed.

Lemma hasBone_gestureStep s si dt e rnd g name bones :
  hasBone name (snd (gestureStep s si dt e rnd g bones)) = hasBone name bones.
Proof.
  unfold gestureStep. cbn [snd].
  destruct (hasBone "head" bones) eqn:Hhead;
    destruct (hasBone "neck" _) eqn:Hneck;
    rewrite ?hasBone_insert_present by assumption; reflexivity.
Qed.

Lemma hasBone_forEachFinger s si dt e names :
  forall index name bones,
    hasBone name (forEachFinger s si dt e index names bones)
    = hasBone name bones.
Proof.
  induction names as [| boneName rest IH]; intros index name bones;
    cbn [forEachFinger].
  - reflexivity.
  - rewrite IH. apply hasBone_alter.
Qed.

Lemma hasBone_humanoidStep s si dt e rnd g b name bones :
  hasBone name (snd (humanoidStep s si dt e rnd g b bones))
  = hasBone name bones.
Proof.
  unfold humanoidStep.
  pose proof (hasBone_gestureStep s si dt e rnd g name
                (breathe s si e bones)) as Hg.
  destruct (gestureStep _ _ _ _ _ _ _) as [g' bones2]. cbn [snd] in *.
  unfold fingers, swayHips, shoulders, applyArms.
  rewrite hasBone_forEachFinger, hasBone_alter.
  destruct (s && Rgtb si 0.35); rewrite !hasBone_alter, Hg;
    apply hasBone_breathe.
Qed.

Lemma animateFrame_humanoid dt e a rnd st vrm :
  match humanoid vrm, humanoid (snd (animateFrame dt e a rnd st vrm)) with
  | Some bones, Some bones' =>
      forall name, hasBone name bones' = hasBone name bones
  | None, None => True
  | _, _ => False
  end.
Proof.
  unfold animateFrame. destruct (frameSpeech dt a st) as [sp bands].
  destruct (humanoid vrm) as [bones |]; [| exact I].
  pose proof (fun name =>
    hasBone_humanoidStep (isSpeaking sp) (speechIntensity sp) dt e rnd
      (gesture st) (body st) name bones) as Hh.
  destruct (humanoidStep _ _ _ _ _ _ _ _) as [[g b] bones']. exact Hh.
Qed.

Lemma frame_gesture_timer_rig dt e a rnd st vrm bones :
  humanoid vrm = Some bones -> hasBone "head" bones = true ->
  let sp := fst (frameSpeech dt a st) in
  gestureTimer (gesture (fst (animateFrame dt e a rnd st vrm)))
  = gestureTimer
      (gestureBranch (isSpeaking sp) (speechIntensity sp) dt e rnd (gesture st)).
Proof.
  destruct vrm as [em hum]. cbn [humanoid]. intros -> Hhead.
  apply frame_gesture_timer, Hhead.
Qed.

Lemma frame_gesture_kept dt e a rnd st vrm :
  match humanoid vrm with
  | Some bones => hasBone "head" bones = false
  | None => True
  end ->
  gestureTimer (gesture (fst (animateFrame dt e a rnd st vrm)))
  = gestureTimer (gesture st).
Proof.
  destruct vrm as [em [bones |]]; cbn [humanoid]; intros Hhead.
  - rewrite animateFrame_gesture. apply gestureStep_no_head.
    rewrite hasBone_breathe. exact Hhead.
  - rewrite animateFrame_no_humanoid. reflexivity.
Qed.

(** C5, as amended.  On a rig with a head bone: on any Speaking frame
    where elapsedTime >= nextGestureTime the controller snapshots the head
    target as the previous target, draws the new variant as floor (7 r),
    one of the 7 variants, each for a draw in an interval of length 1/7,
    reseeds nextGestureTime to now + 2 + 2 r', between 2 and 4 seconds
    ahead, and restarts the phase and the transition progress from 0 (the
    frame then advances them by deltaTime and 1.5 deltaTime); on a Speaking
    frame before nextGestureTime, the frame that enters Speaking included,
    nothing is selected; and every Idle frame sets the variant to 0 and
    nextGestureTime to now + 2, so that a variant is selected on entry into
    Speaking only when 2 seconds have passed since the last Idle frame. *)
Theorem C5_gesture_selection (st : State) (rig : Rig)
    (bones : gmap string Vec3) (f : Frame) :
  humanoid rig = Some bones -> hasBone "head" bones = true ->
  unit_draw (rndGesture (random f)) -> unit_draw (rndGestureTime (random f)) ->
  let st' := fst (step (st, rig) f) in
  let g := gesture st in
  let g' := gesture st' in
  let now := elapsedTime f in
  (isSpeaking (speech st') = true -> nextGestureTime g <= now ->
   previousHeadRotation g' = targetHeadRotation g /\
   previousGesture g' = currentGesture g /\
   currentGesture g' = Math_floor (rndGesture (random f) * 7) /\
   (0 <= currentGesture g' < 7)%Z /\
   nextGestureTime g' = now + 2 + rndGestureTime (random f) * 2 /\
   now + 2 <= nextGestureTime g' < now + 4 /\
   gesturePhase g' = 0 + deltaTime f /\
   gestureTransitionProgress g' = Rmin 1 (0 + deltaTime f * 1.5)) /\
  (isSpeaking (speech st') = true -> now < nextGestureTime g ->
   currentGesture g' = currentGesture g /\
   nextGestureTime g' = nextGestureTime g /\
   previousHeadRotation g' = previousHeadRotation g /\
   previousGesture g' = previousGesture g /\
   gesturePhase g' = gesturePhase g + deltaTime f) /\
  (isSpeaking (speech st') = false ->
   currentGesture g' = 0%Z /\ nextGestureTime g' = now + 2 /\
   gesturePhase g' = 0 /\ gestureTransitionProgress g' = 1) /\
  (forall (k : Z) r,
     Math_floor (r * 7) = k <-> IZR k / 7 <= r < IZR k / 7 + 1 / 7).
Proof.
  intros Hrig Hhead Hr1 Hr2 st' g g' now.
  pose proof (frame_gesture_timer_rig (deltaTime f) now (audio f) (random f)
                st rig bones Hrig Hhead) as Ht.
  cbv zeta in Ht.
  assert (Hsp : isSpeaking (speech st')
            = isSpeaking (fst (frameSpeech (deltaTime f) (audio f) st))).
  { unfold st', step. cbn [fst snd]. rewrite animateFrame_speech. reflexivity. }
  rewrite <- Hsp in Ht. change (gesture (fst _)) with g' in Ht.
  fold g in Ht. unfold gestureBranch in Ht.
  repeat apply conj.
  - intros Hs Hdue. rewrite Hs in Ht.
    rewrite speakingGesture_timer in Ht. unfold selectGesture in Ht.
    rewrite Rgeb_true in Ht by exact Hdue. cbn in Ht.
    rewrite Rltb_true in Ht by lra.
    injection Ht as Hphase Hcur Hnext Hprog Hprev Hsnap.
    rewrite Hsnap, Hprev, Hcur, Hnext, Hphase, Hprog.
    pose proof (Math_floor_draw _ 7 ltac:(lia) Hr1) as Hfloor.
    destruct Hr2 as [Hr20 Hr21].
    repeat split; try reflexivity; try lia; lra.
  - intros Hs Hearly. rewrite Hs in Ht.
    rewrite speakingGesture_timer in Ht. unfold selectGesture in Ht.
    rewrite Rgeb_false in Ht by exact Hearly.
    injection Ht as Hphase Hcur Hnext Hprog Hprev Hsnap.
    repeat split; assumption.
  - intros Hs. rewrite Hs in Ht. cbn in Ht.
    injection Ht as Hphase Hcur Hnext Hprog Hprev Hsnap.
    repeat split; assumption.
  - intros k r. rewrite Math_floor_spec. split; intros H; lra.
Qed.

(** *** Sample frames *)

Lemma hasBone_singleton name (r : Vec3) :
  hasBone name ({[ name := r ]} : gmap string Vec3) = true.
Proof.
  unfold hasBone. apply bool_decide_eq_true.
  rewrite lookup_singleton_eq. eauto.
Qed.

Lemma flat_volume level :
  audioVolume (analyse (flat level)) = IZR level / 255.
Proof.
  unfold analyse. cbn [audioVolume].
  replace (reduce_sum (flat level)) with (128 * level)%Z
    by (unfold reduce_sum, flat; cbn; lia).
  change (length (flat level)) with 128%nat.
  rewrite INR_IZR_INZ. change (Z.of_nat 128) with 128%Z.
  rewrite mult_IZR. field.
Qed.

Lemma frameSpeech_flag dt a st :
  isSpeaking (fst (frameSpeech dt a st))
  = isSpeaking (fst (audioAnalysis (speech st) a)).
Proof.
  unfold frameSpeech. destruct (audioAnalysis (speech st) a). reflexivity.
Qed.

Lemma frameSpeech_flat dt level st :
  isSpeaking (fst (frameSpeech dt (Spectrum (flat level)) st))
  = Rgtb (IZR level / 255) (speakingThreshold (isSpeaking (speech st))).
Proof.
  rewrite frameSpeech_flag. unfold audioAnalysis.
  change (bool_decide (0 < length (flat level))%nat) with true.
  cbn [fst isSpeaking]. unfold detectSpeech. cbn [fst].
  rewrite flat_volume. reflexivity.
Qed.

Lemma C5_gesture_selection_witness :
  let st' := fst (step (initialState 0, headRig) idleFrame) in
  currentGesture (gesture st') = 0%Z /\
  nextGestureTime (gesture st') = 1 + 2 /\
  gesturePhase (gesture st') = 0 /\
  gestureTransitionProgress (gesture st') = 1.
Proof.
  refine (proj1 (proj2 (proj2
            (C5_gesture_selection (initialState 0) headRig
               {[ "head" := zero3 ]} idleFrame _ _ _ _))) _).
  - reflexivity.
  - apply hasBone_singleton.
  - unfold unit_draw. cbn. lra.
  - unfold unit_draw. cbn. lra.
  - unfold step. cbn [fst snd]. rewrite animateFrame_speech.
    unfold idleFrame. cbn [deltaTime audio]. rewrite frameSpeech_flat.
    apply Rgtb_false. cbn. lra.
Defined.

Lemma idleFrame_result :
  let before := step (initialState 0, headRig) idleFrame in
  isSpeaking (speech (fst before)) = false /\
  gestureTimer (gesture (fst before)) = (0, 0%Z, 1 + 2, 1, 0%Z, zero3) /\
  exists bones',
    humanoid (snd before) = Some bones' /\ hasBone "head" bones' = true.
Proof.
  intros before.
  assert (Hflag : isSpeaking (fst (frameSpeech (deltaTime idleFrame)
                     (audio idleFrame) (initialState 0))) = false).
  { unfold idleFrame. cbn [deltaTime audio]. rewrite frameSpeech_flat.
    apply Rgtb_false. cbn. lra. }
  repeat apply conj.
  - unfold before, step. cbn [fst snd]. rewrite animateFrame_speech.
    exact Hflag.
  - unfold before, step. cbn [fst snd].
    rewrite (frame_gesture_timer_rig _ _ _ _ _ headRig {[ "head" := zero3 ]})
      by (reflexivity || apply hasBone_singleton).
    cbv zeta. rewrite Hflag. reflexivity.
  - pose proof (animateFrame_humanoid (deltaTime idleFrame)
                  (elapsedTime idleFrame) (audio idleFrame) (random idleFrame)
                  (initialState 0) headRig) as Hshape.
    change (animateFrame _ _ _ _ _ _) with before in Hshape.
    cbn [humanoid headRig] in Hshape.
    destruct (humanoid (snd before)) as [bones' |]; [| contradiction].
    exists bones'. split; [reflexivity |].
    rewrite Hshape. apply hasBone_singleton.
Qed.

(** C5, as stated, fails on entry into Speaking.  After an Idle frame at
    1 s, the frame at 1.5 s enters Speaking and selects nothing: the
    variant stays 0 although the draw 0.5 stands for variant 3,
    nextGestureTime stays 3, which is not 2 to 4 seconds ahead, and the
    transition progress stays 1. *)
Lemma C5_entry_counterexample :
  let before := step (initialState 0, headRig) idleFrame in
  let after := step before entryFrame in
  isSpeaking (speech (fst before)) = false /\
  isSpeaking (speech (fst after)) = true /\
  Math_floor (rndGesture (random entryFrame) * 7) = 3%Z /\
  currentGesture (gesture (fst after)) = 0%Z /\
  nextGestureTime (gesture (fst after)) = 3 /\
  nextGestureTime (gesture (fst after)) < elapsedTime entryFrame + 2 /\
  gestureTransitionProgress (gesture (fst after)) = 1.
Proof.
  intros before after.
  destruct idleFrame_result as (Hquiet & Hbefore & bones' & Hrig & Hhead).
  fold before in Hquiet, Hbefore, Hrig. clearbody before.
  injection Hbefore as Hphase Hcur Hnext Hprog Hprev Hsnap.
  assert (Hloud : isSpeaking (fst (frameSpeech (deltaTime entryFrame)
                     (audio entryFrame) (fst before))) = true).
  { unfold entryFrame. cbn [deltaTime audio]. rewrite frameSpeech_flat.
    rewrite Hquiet. apply Rgtb_true. cbn. lra. }
  assert (Hafter : gestureTimer (gesture (fst after))
            = (0 + 0.5, 0%Z, 1 + 2, 1, 0%Z, zero3)).
  { unfold after, step.
    rewrite (frame_gesture_timer_rig _ _ _ _ _ _ bones' Hrig Hhead).
    cbv zeta. rewrite Hloud. unfold gestureBranch.
    rewrite speakingGesture_timer. unfold selectGesture.
    change (elapsedTime entryFrame) with 1.5.
    change (deltaTime entryFrame) with 0.5.
    rewrite Hnext, Rgeb_false by lra.
    rewrite Hphase, Hcur, Hnext, Hprog, Hprev, Hsnap.
    rewrite Rltb_false by lra. reflexivity. }
  assert (Hspeak : isSpeaking (speech (fst after)) = true).
  { unfold after, step. rewrite animateFrame_speech. exact Hloud. }
  clearbody after.
  injection Hafter as Hphase' Hcur' Hnext' Hprog' Hprev' Hsnap'.
  repeat apply conj.
  - exact Hquiet.
  - exact Hspeak.
  - apply Math_floor_spec. cbn. lra.
  - exact Hcur'.
  - rewrite Hnext'. lra.
  - rewrite Hnext'. cbn. lra.
  - exact Hprog'.
Qed.

(** ** Silence resets gesture and mood *)

Lemma pickExpression_not_neutral r : pickExpression r <> Neutral.
Proof.
  unfold pickExpression.
  destruct (Math_floor (r * INR (length expressions)) <? 0)%Z;
    [discriminate |].
  destruct (Z.to_nat _) as [| [| [| [| n]]]]; discriminate.
Qed.

Lemma selectExpression_settled speaking e rnd m :
  (currentExpression m = Neutral -> targetExpressionIntensity m = 0) ->
  currentExpression (selectExpression speaking e rnd m) = Neutral ->
  targetExpressionIntensity (selectExpression speaking e rnd m) = 0.
Proof.
  intros Hm. unfold selectExpression.
  destruct (speaking && Rgeb e (nextExpressionTime m)
            && Rgeb (expressionTransitionProgress m) 1); cbn.
  - intros H. destruct (pickExpression_not_neutral _ H).
  - destruct (negb speaking && negb (Mood_eqb (currentExpression m) Neutral));
      cbn; [reflexivity | exact Hm].
Qed.

Lemma selectExpression_silent e rnd m :
  (currentExpression m = Neutral -> targetExpressionIntensity m = 0) ->
  currentExpression (selectExpression false e rnd m) = Neutral /\
  targetExpressionIntensity (selectExpression false e rnd m) = 0.
Proof.
  intros Hm. unfold selectExpression. cbn [andb negb].
  destruct (currentExpression m) eqn:Hcur; cbn; rewrite ?Hcur; auto.
Qed.

Lemma headPresent_step s f : headPresent (snd (step s f)) = headPresent (snd s).
Proof.
  unfold step, headPresent.
  pose proof (animateFrame_humanoid (deltaTime f) (elapsedTime f) (audio f)
                (random f) (fst s) (snd s)) as Hshape.
  destruct (humanoid (snd s)) as [bones |];
    destruct (humanoid (snd (animateFrame _ _ _ _ _ _))) as [bones' |];
    try contradiction; [apply Hshape | reflexivity].
Qed.

Lemma step_gesture_timer s f :
  let sp := fst (frameSpeech (deltaTime f) (audio f) (fst s)) in
  gestureTimer (gesture (fst (step s f)))
  = if headPresent (snd s)
    then gestureTimer
           (gestureBranch (isSpeaking sp) (speechIntensity sp) (deltaTime f)
              (elapsedTime f) (random f) (gesture (fst s)))
    else gestureTimer (gesture (fst s)).
Proof.
  intros sp. unfold step, headPresent.
  destruct (humanoid (snd s)) as [bones |] eqn:Hrig.
  - destruct (hasBone "head" bones) eqn:Hhead.
    + apply (frame_gesture_timer_rig _ _ _ _ _ _ bones Hrig Hhead).
    + apply frame_gesture_kept. rewrite Hrig. exact Hhead.
  - apply frame_gesture_kept. rewrite Hrig. exact I.
Qed.

Lemma settled_step s f : settled s -> settled (step s f).
Proof.
  intros [Hmood Hgest]. split.
  - unfold step. cbn [fst]. rewrite animateFrame_mood.
    change (currentExpression (advanceExpression ?d ?m))
      with (currentExpression m).
    change (targetExpressionIntensity (advanceExpression ?d ?m))
      with (targetExpressionIntensity m).
    apply selectExpression_settled, Hmood.
  - rewrite headPresent_step. intros Hno.
    pose proof (step_gesture_timer s f) as Ht. cbv zeta in Ht.
    rewrite Hno in Ht. injection Ht as _ Hcur _ _ _ _.
    rewrite Hcur. apply Hgest, Hno.
Qed.

Lemma reachable_settled rig0 s : reachable rig0 s -> settled s.
Proof.
  induction 1 as [r Hr | s f _ IH].
  - split; reflexivity.
  - apply settled_step, IH.
Qed.



(** ** Body channels *)

Lemma fingerBones_NoDup : NoDup fingerBones.
Proof. apply (bool_decide_unpack _). vm_compute. exact I. Qed.

Lemma fingerBones_apart :
  Forall (fun name => name ∉ otherBones) fingerBones.
Proof. apply (bool_decide_unpack _). vm_compute. exact I. Qed.

Lemma otherBones_apart :
  Forall (fun name => name ∉ fingerBones) otherBones.
Proof. apply (bool_decide_unpack _). vm_compute. exact I. Qed.

Lemma lookup_forEachFinger_other s si dt e names :
  forall index name bones,
    name ∉ names ->
    forEachFinger s si dt e index names bones !! name = bones !! name.
Proof.
  induction names as [| boneName rest IH]; intros index name bones Hnot;
    cbn [forEachFinger].
  - reflexivity.
  - apply not_elem_of_cons in Hnot as [Hne Hrest].
    rewrite IH by exact Hrest. apply lookup_alter_ne. congruence.
Qed.

Lemma lookup_forEachFinger s si dt e names :
  NoDup names ->
  forall index i name bones,
    names !! i = Some name ->
    forEachFinger s si dt e index names bones !! name
    = curlFinger (fingerCurl s si e (index + i)) dt <$> bones !! name.
Proof.
  induction 1 as [| boneName rest Hfresh Hnd IH];
    intros index i name bones Hi; [discriminate |].
  cbn [forEachFinger]. destruct i as [| i]; cbn in Hi.
  - injection Hi as ->.
    rewrite lookup_forEachFinger_other by exact Hfresh.
    rewrite lookup_alter_eq, Nat.add_0_r. reflexivity.
  - rewrite (IH (S index) i name) by exact Hi.
    rewrite lookup_alter_ne.
    + replace (S index + i)%nat with (index + S i)%nat by lia. reflexivity.
    + intros ->. apply Hfresh. eapply list_elem_of_lookup_2, Hi.
Qed.

Ltac other_bone :=
  repeat first [ rewrite lookup_alter_ne by done
               | rewrite lookup_insert_ne by done ].

Lemma lookup_gestureStep_other s si dt e rnd g name bones :
  name <> "head" -> name <> "neck" ->
  snd (gestureStep s si dt e rnd g bones) !! name = bones !! name.
Proof.
  intros Hhead Hneck. unfold gestureStep. cbn [snd].
  destruct (hasBone "head" bones); destruct (hasBone "neck" _);
    rewrite ?lookup_insert_ne by congruence; reflexivity.
Qed.

Lemma humanoidStep_bones s si dt e rnd g b bones :
  snd (humanoidStep s si dt e rnd g b bones)
  = fingers s si dt e
      (swayHips e
         (shoulders s si dt e
            (applyArms (smoothArms dt (armTargets s si e b))
               (snd (gestureStep s si dt e rnd g (breathe s si e bones)))))).
Proof.
  unfold humanoidStep.
  destruct (gestureStep _ _ _ _ _ _ _) as [g' bones2]. reflexivity.
Qed.

Lemma animateFrame_bones dt e a rnd st vrm bones :
  humanoid vrm = Some bones ->
  let sp := fst (frameSpeech dt a st) in
  humanoid (snd (animateFrame dt e a rnd st vrm))
  = Some (snd (humanoidStep (isSpeaking sp) (speechIntensity sp) dt e rnd
                 (gesture st) (body st) bones)).
Proof.
  intros Hrig. unfold animateFrame.
  destruct (frameSpeech dt a st) as [sp bands]. rewrite Hrig. cbn [fst].
  destruct (humanoidStep _ _ _ _ _ _ _ _) as [[g b] bones']. reflexivity.
Qed.

Lemma lookup_shoulders_other s si dt e name bones :
  name <> "leftShoulder" -> name <> "rightShoulder" ->
  shoulders s si dt e bones !! name = bones !! name.
Proof.
  intros Hl Hr. unfold shoulders.
  destruct (s && Rgtb si 0.35); rewrite !lookup_alter_ne by congruence;
    reflexivity.
Qed.

(** A bone that is no finger keeps, at the end of the block, what the
    writes before the fingers left in it. *)
Lemma lookup_fingers_other s si dt e name bones :
  name ∉ fingerBones -> fingers s si dt e bones !! name = bones !! name.
Proof. apply lookup_forEachFinger_other. Qed.

Lemma other_not_finger name : name ∈ otherBones -> name ∉ fingerBones.
Proof. intros H. exact (proj1 (Forall_forall _ _) otherBones_apart name H). Qed.

Lemma finger_not_other name : name ∈ fingerBones -> name ∉ otherBones.
Proof. intros H. exact (proj1 (Forall_forall _ _) fingerBones_apart name H). Qed.

Lemma lookup_before_fingers s si dt e rnd g b' name bones :
  name ∉ otherBones ->
  swayHips e
    (shoulders s si dt e
       (applyArms b'
          (snd (gestureStep s si dt e rnd g (breathe s si e bones)))))
  !! name = bones !! name.
Proof.
  unfold otherBones. intros H.
  repeat (apply not_elem_of_cons in H as [? H]).
  unfold swayHips. rewrite lookup_alter_ne by congruence.
  rewrite lookup_shoulders_other by congruence.
  unfold applyArms. rewrite !lookup_alter_ne by congruence.
  rewrite lookup_gestureStep_other by congruence.
  unfold breathe. rewrite !lookup_alter_ne by congruence. reflexivity.
Qed.

Ltac in_list :=
  repeat first [ apply list_elem_of_here | apply list_elem_of_further ].

Ltac to_named_bone :=
  rewrite humanoidStep_bones;
  rewrite lookup_fingers_other by (apply other_not_finger; in_list);
  unfold swayHips;
  rewrite ?lookup_alter_ne by done;
  rewrite ?lookup_shoulders_other by done;
  unfold applyArms.

Section BodyChannels.

Variables (s : bool) (si dt e : R) (rnd : Random).
Variables (g : GestureState) (b : BodyState) (bones : gmap string Vec3).

Let bones' := snd (humanoidStep s si dt e rnd g b bones).
Let target := armTargets s si e b.

Lemma upperArm_smoothed :
  bones' !! "leftUpperArm"
  = (fun _ => smoothVec3 (leftArmRotation b) (targetLeftArmRotation target)
                0.1 dt) <$> bones !! "leftUpperArm" /\
  bones' !! "rightUpperArm"
  = (fun _ => smoothVec3 (rightArmRotation b) (targetRightArmRotation target)
                0.1 dt) <$> bones !! "rightUpperArm".
Proof.
  unfold bones'. split; to_named_bone; other_bone;
    rewrite lookup_alter_eq; other_bone;
    rewrite lookup_gestureStep_other by done;
    unfold breathe; other_bone;
    unfold target, armTargets; destruct s; reflexivity.
Qed.

Lemma lowerArm_smoothed :
  bones' !! "leftLowerArm"
  = set_x (smoothLerp (leftLowerArmRotation b)
             (targetLeftLowerArmRotation target) 0.1 dt)
      <$> bones !! "leftLowerArm" /\
  bones' !! "rightLowerArm"
  = set_x (smoothLerp (rightLowerArmRotation b)
             (targetRightLowerArmRotation target) 0.1 dt)
      <$> bones !! "rightLowerArm".
Proof.
  unfold bones'. split; to_named_bone; other_bone;
    rewrite lookup_alter_eq; other_bone;
    rewrite lookup_gestureStep_other by done;
    unfold breathe; other_bone;
    unfold target, armTargets; destruct s; reflexivity.
Qed.

Lemma hand_smoothed :
  bones' !! "leftHand"
  = (fun _ => smoothVec3 (left (handRotation b))
                (left (targetHandRotation target)) 0.1 dt)
      <$> bones !! "leftHand" /\
  bones' !! "rightHand"
  = (fun _ => smoothVec3 (right (handRotation b))
                (right (targetHandRotation target)) 0.1 dt)
      <$> bones !! "rightHand".
Proof.
  unfold bones'. split; to_named_bone; other_bone;
    rewrite lookup_alter_eq; other_bone;
    rewrite lookup_gestureStep_other by done;
    unfold breathe; other_bone;
    unfold target, armTargets; destruct s; reflexivity.
Qed.

Lemma shoulder_smoothed :
  let emphasis := s && Rgtb si 0.35 in
  bones' !! "leftShoulder"
  = shoulderTo (if emphasis then sin (e * 1.3) * 0.03 else 0)
               (if emphasis then cos (e * 1.1) * 0.015 else 0) dt
      <$> bones !! "leftShoulder" /\
  bones' !! "rightShoulder"
  = shoulderTo (if emphasis then - sin (e * 1.3) * 0.03 else 0)
               (if emphasis then - cos (e * 1.1) * 0.015 else 0) dt
      <$> bones !! "rightShoulder".
Proof.
  unfold bones'. split;
    rewrite humanoidStep_bones;
    rewrite lookup_fingers_other by (apply other_not_finger; in_list);
    unfold swayHips; rewrite lookup_alter_ne by done;
    unfold shoulders; destruct (s && Rgtb si 0.35);
    other_bone; rewrite lookup_alter_eq; other_bone;
    unfold applyArms; other_bone;
    rewrite lookup_gestureStep_other by done;
    unfold breathe; other_bone; reflexivity.
Qed.

Lemma finger_smoothed (i : nat) (name : string) :
  fingerBones !! i = Some name ->
  bones' !! name
  = curlFinger (fingerCurl s si e i) dt <$> bones !! name.
Proof.
  intros Hi. unfold bones'. rewrite humanoidStep_bones. unfold fingers.
  rewrite (lookup_forEachFinger _ _ _ _ _ fingerBones_NoDup 0 i name _ Hi).
  rewrite lookup_before_fingers; [reflexivity |].
  apply finger_not_other. eapply list_elem_of_lookup_2, Hi.
Qed.

(** Spine, chest and hips take the value computed on the frame. *)
Lemma spine_direct :
  bones' !! "spine"
  = (fun r => set_z (swayCycle e)
                (set_x (breathCycle e + speakingBreath s si) r))
      <$> bones !! "spine".
Proof.
  unfold bones'. to_named_bone. other_bone.
  rewrite lookup_gestureStep_other by done.
  unfold breathe. other_bone. apply lookup_alter_eq.
Qed.

Lemma chest_direct :
  bones' !! "chest"
  = set_x ((breathCycle e + speakingBreath s si) * 0.5) <$> bones !! "chest".
Proof.
  unfold bones'. to_named_bone. other_bone.
  rewrite lookup_gestureStep_other by done.
  unfold breathe. rewrite lookup_alter_eq. other_bone. reflexivity.
Qed.

Lemma hips_direct :
  bones' !! "hips" = set_y (hipSway e) <$> bones !! "hips".
Proof.
  unfold bones'. rewrite humanoidStep_bones.
  rewrite lookup_fingers_other by (apply other_not_finger; in_list).
  unfold swayHips. rewrite lookup_alter_eq.
  rewrite lookup_shoulders_other by done.
  unfold applyArms. other_bone.
  rewrite lookup_gestureStep_other by done.
  unfold breathe. other_bone. reflexivity.
Qed.

End BodyChannels.

(** C7, as amended.  On a rig with a humanoid, the rotations written to
    the upper arms, lower arms and hands (rate 0.1), to the shoulders
    (rate 0.08) and to the finger bones (rate 0.1) are smoothing steps
    from the previous value towards the target of the frame; the rotations
    written to spine, chest and hips are the values computed on the frame,
    with no smoothing. *)
Theorem C7_body_channels (st : State) (rig : Rig)
    (bones : gmap string Vec3) (f : Frame) :
  humanoid rig = Some bones ->
  let s' := step (st, rig) f in
  let speaking := isSpeaking (speech (fst s')) in
  let si := speechIntensity (speech (fst s')) in
  let dt := deltaTime f in
  let now := elapsedTime f in
  let target := armTargets speaking si now (body st) in
  let emphasis := speaking && Rgtb si 0.35 in
  exists bones', humanoid (snd s') = Some bones' /\
    bones' !! "leftUpperArm"
    = (fun _ => smoothVec3 (leftArmRotation (body st))
                  (targetLeftArmRotation target) 0.1 dt)
        <$> bones !! "leftUpperArm" /\
    bones' !! "rightUpperArm"
    = (fun _ => smoothVec3 (rightArmRotation (body st))
                  (targetRightArmRotation target) 0.1 dt)
        <$> bones !! "rightUpperArm" /\
    bones' !! "leftLowerArm"
    = (fun r => {| x := smoothLerp (leftLowerArmRotation (body st))
                          (targetLeftLowerArmRotation target) 0.1 dt;
                   y := y r; z := z r |}) <$> bones !! "leftLowerArm" /\
    bones' !! "rightLowerArm"
    = (fun r => {| x := smoothLerp (rightLowerArmRotation (body st))
                          (targetRightLowerArmRotation target) 0.1 dt;
                   y := y r; z := z r |}) <$> bones !! "rightLowerArm" /\
    bones' !! "leftHand"
    = (fun _ => smoothVec3 (left (handRotation (body st)))
                  (left (targetHandRotation target)) 0.1 dt)
        <$> bones !! "leftHand" /\
    bones' !! "rightHand"
    = (fun _ => smoothVec3 (right (handRotation (body st)))
                  (right (targetHandRotation target)) 0.1 dt)
        <$> bones !! "rightHand" /\
    bones' !! "leftShoulder"
    = (fun r =>
         {| x := x r;
            y := smoothLerp (y r)
                   (if emphasis then cos (now * 1.1) * 0.015 else 0) 0.08 dt;
            z := smoothLerp (z r)
                   (if emphasis then sin (now * 1.3) * 0.03 else 0) 0.08 dt |})
        <$> bones !! "leftShoulder" /\
    bones' !! "rightShoulder"
    = (fun r =>
         {| x := x r;
            y := smoothLerp (y r)
                   (if emphasis then - cos (now * 1.1) * 0.015 else 0) 0.08 dt;
            z := smoothLerp (z r)
                   (if emphasis then - sin (now * 1.3) * 0.03 else 0) 0.08 dt |})
        <$> bones !! "rightShoulder" /\
    (forall (i : nat) (name : string),
       fingerBones !! i = Some name ->
       bones' !! name
       = (fun r =>
            {| x := x r; y := y r;
               z := smoothLerp (z r) (fingerCurl speaking si now i) 0.1 dt |})
           <$> bones !! name) /\
    bones' !! "spine"
    = (fun r => {| x := breathCycle now + speakingBreath speaking si;
                   y := y r; z := swayCycle now |}) <$> bones !! "spine" /\
    bones' !! "chest"
    = (fun r => {| x := (breathCycle now + speakingBreath speaking si) * 0.5;
                   y := y r; z := z r |}) <$> bones !! "chest" /\
    bones' !! "hips"
    = (fun r => {| x := x r; y := hipSway now; z := z r |})
        <$> bones !! "hips".
Proof.
  intros Hrig s'. cbv zeta.
  assert (Hsp : speech (fst s')
            = fst (frameSpeech (deltaTime f) (audio f) st))
    by apply animateFrame_speech.
  eexists. split.
  { unfold s', step. cbn [fst snd].
    apply (animateFrame_bones _ _ _ _ _ _ bones Hrig). }
  cbv zeta. rewrite <- Hsp.
  repeat apply conj.
  - apply upperArm_smoothed.
  - apply upperArm_smoothed.
  - apply lowerArm_smoothed.
  - apply lowerArm_smoothed.
  - apply hand_smoothed.
  - apply hand_smoothed.
  - apply shoulder_smoothed.
  - apply shoulder_smoothed.
  - apply finger_smoothed.
  - apply spine_direct.
  - apply chest_direct.
  - apply hips_direct.
Qed.

Lemma idleFrame_silent st :
  isSpeaking (speech st) = false ->
  isSpeaking (fst (frameSpeech (deltaTime idleFrame) (audio idleFrame) st))
  = false.
Proof.
  intros Hs. unfold idleFrame. cbn [deltaTime audio].
  rewrite frameSpeech_flat, Hs. apply Rgtb_false. cbn. lra.
Qed.

Lemma C7_body_channels_witness :
  let s' := step (initialState 0, bodyRig) idleFrame in
  exists bones',
    humanoid (snd s') = Some bones' /\
    bones' !! "hips" = None /\ is_Some (bones' !! "spine").
Proof.
  destruct (C7_body_channels (initialState 0) bodyRig
              {[ "spine" := zero3 ]} idleFrame eq_refl)
    as (bones' & Hrig & _ & _ & _ & _ & _ & _ & _ & _ & _ & Hspine & _ & Hhips).
  exists bones'. split; [exact Hrig |]. split.
  - rewrite Hhips, lookup_singleton_ne by done. reflexivity.
  - rewrite Hspine, lookup_singleton_eq. eauto.
Defined.

(** C7, as stated, fails for the spine.  On an Idle frame at 1 s, one
    second long, the spine rotation goes from 0 to the breathing value of
    the frame itself; a smoothing step from 0 at any rate of (0,1) would
    stop short of it. *)
Lemma C7_spine_counterexample :
  let s' := step (initialState 0, bodyRig) idleFrame in
  exists bones',
    humanoid (snd s') = Some bones' /\
    bones' !! "spine"
    = Some {| x := breathCycle 1 + 0; y := 0; z := swayCycle 1 |} /\
    0 < breathCycle 1 + 0 /\
    forall rate, 0 < rate < 1 ->
      smoothLerp 0 (breathCycle 1 + 0) rate 1 < breathCycle 1 + 0.
Proof.
  intros s'. eexists. split; [| split; [| split]].
  - unfold s', step. cbn [fst snd].
    apply (animateFrame_bones _ _ _ _ _ bodyRig {[ "spine" := zero3 ]} eq_refl).
  - cbv zeta. rewrite spine_direct, lookup_singleton_eq.
    rewrite idleFrame_silent by reflexivity. reflexivity.
  - unfold breathCycle.
    assert (Hpi : 3 < PI) by (pose proof PI2_3_2; lra).
    assert (Hsin : 0 < sin (1 * 1.2)) by (apply sin_gt_0; lra).
    lra.
  - intros rate Hrate. rewrite smoothLerp_decay by exact Hrate.
    assert (Hp : 0 < Rpower (1 - rate) (1 * 60)) by apply exp_pos.
    assert (Hpi : 3 < PI) by (pose proof PI2_3_2; lra).
    assert (Hsin : 0 < sin (1 * 1.2)) by (apply sin_gt_0; lra).
    unfold breathCycle. nra.
Qed.

(** ** A read of the spectrum that throws *)

Lemma animateFrame_targetMouth dt e a rnd st vrm :
  targetMouthShapes (fst (animateFrame dt e a rnd st vrm))
  = mouthTargets (isSpeaking (fst (frameSpeech dt a st)))
      (snd (frameSpeech dt a st)).
Proof. frame_cases dt e a rnd st vrm; reflexivity. Qed.

Lemma animateFrame_same_speech dt e a1 a2 rnd st vrm :
  frameSpeech dt a1 st = frameSpeech dt a2 st ->
  animateFrame dt e a1 rnd st vrm = animateFrame dt e a2 rnd st vrm.
Proof. intros H. unfold animateFrame. rewrite H. reflexivity. Qed.

Lemma flat_lowFreq level :
  lowFreq (analyse (flat level)) = IZR level / 255.
Proof.
  unfold analyse. cbn [lowFreq].
  change (length (flat level) / 3)%nat with 42%nat.
  replace (reduce_sum (take 42 (flat level))) with (42 * level)%Z
    by (unfold reduce_sum, flat; cbn; lia).
  rewrite INR_IZR_INZ. change (Z.of_nat 42) with 42%Z.
  rewrite mult_IZR. field.
Qed.

Lemma frameSpeech_bands_flat dt level st :
  snd (frameSpeech dt (Spectrum (flat level)) st) = analyse (flat level).
Proof. reflexivity. Qed.

(** C8, as amended.  A read of the spectrum that throws leaves the frame
    as a frame without analyser: isSpeaking and the intensity target are
    the ones of the frame before, the intensity takes its smoothing step
    towards that target, and the volume and the three bands of the frame
    are 0, so the mouth targets of the frame are 0.  The frame returns as
    any other. *)
Theorem C8_read_error (st : State) (rig : Rig) (f : Frame) :
  audio f = ReadThrows ->
  let st' := fst (step (st, rig) f) in
  let read := frameSpeech (deltaTime f) (audio f) st in
  isSpeaking (speech st') = isSpeaking (speech st) /\
  targetSpeechIntensity (speech st') = targetSpeechIntensity (speech st) /\
  speechIntensity (speech st')
  = smoothLerp (speechIntensity (speech st))
      (targetSpeechIntensity (speech st)) 0.15 (deltaTime f) /\
  snd read = silence /\
  aa (targetMouthShapes st') = 0 /\ ih (targetMouthShapes st') = 0 /\
  ou (targetMouthShapes st') = 0 /\ oh (targetMouthShapes st') = 0 /\
  step (st, rig) f
  = animateFrame (deltaTime f) (elapsedTime f) NoAnalyser (random f) st rig.
Proof.
  intros Ha st' read.
  assert (Hsp : speech st' = smoothSpeech (speech st) (deltaTime f)).
  { unfold st', step. cbn [fst snd]. rewrite animateFrame_speech, Ha.
    reflexivity. }
  assert (Hmouth : targetMouthShapes st'
            = mouthTargets (isSpeaking (speech st)) silence).
  { unfold st', step. cbn [fst snd]. rewrite animateFrame_targetMouth, Ha.
    reflexivity. }
  rewrite Hsp, Hmouth. unfold read. rewrite Ha.
  repeat apply conj; try reflexivity;
    try (unfold mouthTargets; destruct (isSpeaking (speech st)); cbn; lra).
  unfold step. cbn [fst snd]. rewrite Ha. reflexivity.
Qed.

Lemma C8_read_error_witness :
  isSpeaking (speech (fst (step (initialState 0, headRig) throwFrame)))
  = false.
Proof.
  exact (proj1 (C8_read_error (initialState 0) headRig throwFrame eq_refl)).
Defined.

(** C8, as stated, fails for the volume and the bands.  After a frame that
    reads a spectrum at full level, whose low band is 1 and whose target
    for the open mouth is 0.8, a frame whose read throws keeps isSpeaking
    but has its bands at 0 and its target for the open mouth at 0. *)
Lemma C8_bands_counterexample :
  let s1 := step (initialState 0, headRig) entryFrame in
  let s2 := step s1 throwFrame in
  isSpeaking (speech (fst s1)) = true /\
  lowFreq (snd (frameSpeech (deltaTime entryFrame) (audio entryFrame)
                  (initialState 0))) = 1 /\
  aa (targetMouthShapes (fst s1)) = 0.8 /\
  isSpeaking (speech (fst s2)) = true /\
  lowFreq (snd (frameSpeech (deltaTime throwFrame) (audio throwFrame)
                  (fst s1))) = 0 /\
  aa (targetMouthShapes (fst s2)) = 0.
Proof.
  intros s1 s2.
  assert (Hloud : isSpeaking (fst (frameSpeech (deltaTime entryFrame)
                     (audio entryFrame) (initialState 0))) = true).
  { unfold entryFrame. cbn [deltaTime audio]. rewrite frameSpeech_flat.
    apply Rgtb_true. cbn. lra. }
  assert (Hlow : lowFreq (snd (frameSpeech (deltaTime entryFrame)
                    (audio entryFrame) (initialState 0))) = 1).
  { unfold entryFrame. cbn [deltaTime audio].
    rewrite frameSpeech_bands_flat, flat_lowFreq. lra. }
  assert (H1 : isSpeaking (speech (fst s1)) = true).
  { unfold s1, step. cbn [fst snd]. rewrite animateFrame_speech. exact Hloud. }
  assert (Hm1 : aa (targetMouthShapes (fst s1)) = 0.8).
  { unfold s1, step. cbn [fst snd].
    rewrite animateFrame_targetMouth, Hloud.
    unfold mouthTargets. cbn [aa]. rewrite Hlow. lra. }
  clearbody s1.
  assert (H2 : isSpeaking (speech (fst s2)) = true).
  { unfold s2, step. rewrite animateFrame_speech. exact H1. }
  assert (Hm2 : aa (targetMouthShapes (fst s2)) = 0).
  { unfold s2, step. rewrite animateFrame_targetMouth.
    change (frameSpeech (deltaTime throwFrame) (audio throwFrame) (fst s1))
      with (smoothSpeech (speech (fst s1)) 0.5, silence).
    cbn [fst snd smoothSpeech isSpeaking]. rewrite H1. cbn. lra. }
  repeat apply conj; try assumption. reflexivity.
Qed.

(** ** Clean-up *)

Lemma release_idempotent w : release (release w) = release w.
Proof.
  unfold release. cbn.
  destruct (audioSource w), (audioContext w), (vrmScene w); reflexivity.
Qed.

Lemma release_no_audio w : liveAudioNode (release w) = false.
Proof.
  unfold liveAudioNode, release. cbn.
  destruct (audioSource w), (audioContext w); reflexivity.
Qed.




(** ** The weight applied for "surprised" *)

Lemma animateFrame_expressionValues dt e a rnd st vrm :
  let sp := fst (frameSpeech dt a st) in
  let st' := fst (animateFrame dt e a rnd st vrm) in
  expressionValues st'
  = smoothExpressions (expressionValues st) (targetExpressionValues st') dt.
Proof. frame_cases dt e a rnd st vrm; reflexivity. Qed.

Lemma animateFrame_expressionManager dt e a rnd st vrm :
  let st' := fst (animateFrame dt e a rnd st vrm) in
  let em1 :=
    applyExpressions (mouthShapes st') (expressionValues st')
      <$> expressionManager vrm in
  expressionManager (snd (animateFrame dt e a rnd st vrm))
  = match humanoid vrm with
    | Some _ =>
        applyEyebrow (isSpeaking (speech st'))
          (currentExpression (mood st'))
          (eyebrowIntensity (gesture st')) <$> em1
    | None => em1
    end.
Proof. frame_cases dt e a rnd st vrm; reflexivity. Qed.

Lemma applyExpressions_surprised mouth ev (em : gmap string R) :
  applyExpressions mouth ev em !! "surprised" = Some (surprised ev).
Proof.
  unfold applyExpressions, setValue.
  rewrite !lookup_insert_ne by done. apply lookup_insert_eq.
Qed.

Lemma applyEyebrow_surprised speaking m eyebrow (em : gmap string R) :
  applyEyebrow speaking m eyebrow em !! "surprised"
  = if speaking && Mood_eqb m Neutral
    then Some (eyebrow * 0.15)
    else em !! "surprised".
Proof.
  unfold applyEyebrow, setValue.
  destruct (speaking && Mood_eqb m Neutral);
    [apply lookup_insert_eq | reflexivity].
Qed.

Lemma Mood_eqb_eq a b : Mood_eqb a b = true <-> a = b.
Proof. destruct a, b; cbn; split; congruence. Qed.

(** C10.  On a rig with an expression manager and a humanoid: on a frame
    where isSpeaking is true and the mood is neutral the weight last set
    for "surprised" is eyebrowIntensity * 0.15, written over the smoothed
    value of the same frame; on any other frame it is the smoothed
    [expressionValues.surprised]. *)
Theorem C10_surprised_weight (st : State) (rig : Rig)
    (em : gmap string R) (bones : gmap string Vec3) (f : Frame) :
  expressionManager rig = Some em -> humanoid rig = Some bones ->
  let s' := step (st, rig) f in
  let st' := fst s' in
  exists em',
    expressionManager (snd s') = Some em' /\
    (isSpeaking (speech st') = true ->
     currentExpression (mood st') = Neutral ->
     em' !! "surprised" = Some (eyebrowIntensity (gesture st') * 0.15)) /\
    (isSpeaking (speech st') = false \/
     currentExpression (mood st') <> Neutral ->
     em' !! "surprised" = Some (surprised (expressionValues st'))) /\
    surprised (expressionValues st')
    = smoothLerp (surprised (expressionValues st))
        (surprised (targetExpressionValues st')) 0.1 (deltaTime f).
Proof.
  intros Hem Hrig s' st'.
  pose proof (animateFrame_expressionManager (deltaTime f) (elapsedTime f)
                (audio f) (random f) st rig) as Hm.
  cbv zeta in Hm. rewrite Hem, Hrig in Hm. cbn [fmap option_fmap option_map] in Hm.
  eexists. split; [exact Hm |].
  fold (step (st, rig) f) in Hm |- *. fold s' st'.
  change (fst (animateFrame (deltaTime f) (elapsedTime f) (audio f) (random f)
                 st rig)) with st'.
  rewrite applyEyebrow_surprised, applyExpressions_surprised.
  repeat apply conj.
  - intros Hs Hn. rewrite Hs, Hn. reflexivity.
  - intros [Hs | Hn].
    + rewrite Hs. reflexivity.
    + destruct (Mood_eqb (currentExpression (mood st')) Neutral) eqn:Heq.
      * apply Mood_eqb_eq in Heq. contradiction.
      * rewrite andb_false_r. reflexivity.
  - unfold st', s', step. cbn [fst snd].
    rewrite animateFrame_expressionValues. reflexivity.
Qed.

Lemma C10_surprised_weight_witness :
  let s' := step (initialState 0, headRig) idleFrame in
  exists em',
    expressionManager (snd s') = Some em' /\
    em' !! "surprised" = Some (surprised (expressionValues (fst s'))).
Proof.
  destruct (C10_surprised_weight (initialState 0) headRig ∅
              {[ "head" := zero3 ]} idleFrame eq_refl eq_refl)
    as (em' & Hem & _ & Hother & _).
  exists em'. split; [exact Hem |].
  apply Hother. left. apply (proj1 idleFrame_result).
Defined.


(** * Further properties of the animation core *)

(** ** Smoothing and easing *)

Lemma Math_pow_0_r b : Math_pow b 0 = 1.
Proof.
  replace 0 with (INR 0) by reflexivity. rewrite Math_pow_nat. reflexivity.
Qed.

(** Two smoothing steps towards the same target make the step of the
    two durations together: the value reached does not depend on how the
    time is cut into frames. *)
Lemma smoothLerp_compose (current target factor d1 d2 : R) :
  0 < factor < 1 ->
  smoothLerp (smoothLerp current target factor d1) target factor d2
  = smoothLerp current target factor (d1 + d2).
Proof.
  intros Hf. rewrite !smoothLerp_decay by exact Hf.
  replace ((d1 + d2) * 60) with (d1 * 60 + d2 * 60) by ring.
  rewrite Rpower_plus. ring.
Qed.

Lemma smoothLerp_compose_witness :
  smoothLerp (smoothLerp 0 1 0.1 0.25) 1 0.1 0.75 = smoothLerp 0 1 0.1 (0.25 + 0.75).
Proof. apply smoothLerp_compose. lra. Defined.




Lemma easeInOutQuad_low t : t < 0.5 -> easeInOutQuad t = 2 * t * t.
Proof. intros H. unfold easeInOutQuad. rewrite Rltb_true by exact H. reflexivity. Qed.

Lemma easeInOutQuad_high t :
  0.5 <= t -> easeInOutQuad t = 1 - (-2 * t + 2) * (-2 * t + 2) / 2.
Proof.
  intros H. unfold easeInOutQuad. rewrite Rltb_false by exact H.
  rewrite Math_pow_2. reflexivity.
Qed.

Lemma easeInOutCubic_low t : t < 0.5 -> easeInOutCubic t = 4 * t * t * t.
Proof. intros H. unfold easeInOutCubic. rewrite Rltb_true by exact H. reflexivity. Qed.

Lemma easeInOutCubic_high t :
  0.5 <= t ->
  easeInOutCubic t = 1 - (-2 * t + 2) * (-2 * t + 2) * (-2 * t + 2) / 2.
Proof.
  intros H. unfold easeInOutCubic. rewrite Rltb_false by exact H.
  rewrite Math_pow_3. reflexivity.
Qed.

Lemma easeInOutQuad_unit t : 0 <= t <= 1 -> 0 <= easeInOutQuad t <= 1.
Proof.
  intros Ht. destruct (Rlt_dec t 0.5) as [Hlt | Hge].
  - rewrite easeInOutQuad_low by exact Hlt. nra.
  - rewrite easeInOutQuad_high by lra. nra.
Qed.

Lemma easeInOutQuad_mono s t :
  0 <= s -> s <= t -> t <= 1 -> easeInOutQuad s <= easeInOutQuad t.
Proof.
  intros Hs Hst Ht.
  destruct (Rlt_dec s 0.5) as [Hs5 | Hs5];
    destruct (Rlt_dec t 0.5) as [Ht5 | Ht5];
    rewrite ?easeInOutQuad_low by assumption;
    rewrite ?easeInOutQuad_high by lra; nra.
Qed.

Lemma cube_mono a b : 0 <= a -> a <= b -> a * a * a <= b * b * b.
Proof.
  intros Ha Hab.
  assert (H2 : a * a <= b * b) by nra.
  assert (Hb : 0 <= b * b) by nra.
  nra.
Qed.

Lemma easeInOutCubic_mono s t :
  0 <= s -> s <= t -> t <= 1 -> easeInOutCubic s <= easeInOutCubic t.
Proof.
  intros Hs Hst Ht.
  destruct (Rlt_dec s 0.5) as [Hs5 | Hs5];
    destruct (Rlt_dec t 0.5) as [Ht5 | Ht5];
    rewrite ?easeInOutCubic_low by assumption;
    rewrite ?easeInOutCubic_high by lra.
  - pose proof (cube_mono s t Hs Hst). lra.
  - pose proof (cube_mono s 0.5 Hs ltac:(lra)).
    pose proof (cube_mono (-2 * t + 2) 1 ltac:(lra) ltac:(lra)). lra.
  - lra.
  - pose proof (cube_mono (-2 * t + 2) (-2 * s + 2) ltac:(lra) ltac:(lra)).
    lra.
Qed.

(** X3.  [easeInOutQuad] and [easeInOutCubic] send 0 to 0 and 1 to 1, keep
    [0,1] inside [0,1], never decrease on [0,1], and are symmetric about
    the middle: the ease of [1 - t] is 1 minus the ease of [t], for every
    [t].  The two branches meet at 0.5. *)
Theorem easeInOut_shape (s t : R) :
  0 <= s -> s <= t -> t <= 1 ->
  easeInOutQuad 0 = 0 /\ easeInOutQuad 1 = 1 /\
  easeInOutCubic 0 = 0 /\ easeInOutCubic 1 = 1 /\
  easeInOutQuad 0.5 = 0.5 /\ easeInOutCubic 0.5 = 0.5 /\
  0 <= easeInOutQuad t <= 1 /\ 0 <= easeInOutCubic t <= 1 /\
  easeInOutQuad s <= easeInOutQuad t /\
  easeInOutCubic s <= easeInOutCubic t /\
  (forall u, easeInOutQuad (1 - u) = 1 - easeInOutQuad u) /\
  (forall u, easeInOutCubic (1 - u) = 1 - easeInOutCubic u).
Proof.
  intros Hs Hst Ht. repeat apply conj.
  - rewrite easeInOutQuad_low by lra. lra.
  - rewrite easeInOutQuad_high by lra. lra.
  - apply easeInOutCubic_0.
  - apply easeInOutCubic_1.
  - rewrite easeInOutQuad_high by lra. lra.
  - rewrite easeInOutCubic_high by lra. lra.
  - apply easeInOutQuad_unit. lra.
  - apply easeInOutQuad_unit. lra.
  - apply easeInOutCubic_unit. lra.
  - apply easeInOutCubic_unit. lra.
  - apply easeInOutQuad_mono; assumption.
  - apply easeInOutCubic_mono; assumption.
  - intros u. destruct (Rlt_dec u 0.5) as [Hu | Hu].
    + rewrite (easeInOutQuad_low u), easeInOutQuad_high by lra. lra.
    + destruct (Req_dec_T u 0.5) as [-> | Hne].
      * replace (1 - 0.5) with 0.5 by lra.
        rewrite easeInOutQuad_high by lra. lra.
      * rewrite (easeInOutQuad_high u), easeInOutQuad_low by lra. lra.
  - intros u. destruct (Rlt_dec u 0.5) as [Hu | Hu].
    + rewrite (easeInOutCubic_low u), easeInOutCubic_high by lra. lra.
    + destruct (Req_dec_T u 0.5) as [-> | Hne].
      * replace (1 - 0.5) with 0.5 by lra.
        rewrite easeInOutCubic_high by lra. lra.
      * rewrite (easeInOutCubic_high u), easeInOutCubic_low by lra. lra.
Qed.

Lemma easeInOut_shape_witness :
  easeInOutQuad 0.25 <= easeInOutQuad 0.75.
Proof.
  refine (proj1 (proj2 (proj2 (proj2 (proj2 (proj2 (proj2 (proj2 (proj2
            (easeInOut_shape 0.25 0.75 _ _ _)))))))))); lra.
Defined.

(** X4.  [easeOutQuad] sends 0 to 0 and 1 to 1, keeps [0,1] inside [0,1],
    never decreases up to 1, and on [0,1] is never behind the linear
    ramp. *)
Theorem easeOutQuad_shape (s t : R) :
  0 <= s -> s <= t -> t <= 1 ->
  easeOutQuad 0 = 0 /\ easeOutQuad 1 = 1 /\
  0 <= easeOutQuad t <= 1 /\ easeOutQuad s <= easeOutQuad t /\
  t <= easeOutQuad t.
Proof.
  intros Hs Hst Ht. unfold easeOutQuad. repeat apply conj; nra.
Qed.

Lemma easeOutQuad_shape_witness : 0.5 <= easeOutQuad 0.5.
Proof.
  refine (proj2 (proj2 (proj2 (proj2 (easeOutQuad_shape 0.25 0.5 _ _ _)))));
    lra.
Defined.

(** ** The analysis of a spectrum *)

Lemma foldl_add_shift (l : list Z) :
  forall a, foldl Z.add a l = (a + foldl Z.add 0 l)%Z.
Proof.
  induction l as [| b l IH]; intros a; cbn [foldl].
  - lia.
  - rewrite (IH (a + b)%Z), (IH (0 + b)%Z). lia.
Qed.

Lemma reduce_sum_bounds (l : list Z) :
  Forall isByte l -> (0 <= reduce_sum l <= 255 * Z.of_nat (length l))%Z.
Proof.
  unfold reduce_sum. induction 1 as [| b l Hb _ IH]; cbn [foldl length].
  - lia.
  - rewrite foldl_add_shift. unfold isByte in Hb. lia.
Qed.

Lemma reduce_sum_real (l : list Z) :
  Forall isByte l -> 0 <= IZR (reduce_sum l) <= 255 * INR (length l).
Proof.
  intros H. destruct (reduce_sum_bounds l H) as [Hlo Hhi].
  apply IZR_le in Hlo, Hhi. rewrite mult_IZR, <- INR_IZR_INZ in Hhi. lra.
Qed.

Lemma band_bounds (a m k : R) :
  0 <= a <= 255 * m -> 0 < k -> 0 <= a / k / 255 <= m / k.
Proof.
  intros Ha Hk. assert (Hik : 0 < / k) by apply Rinv_0_lt_compat, Hk.
  unfold Rdiv. split; nra.
Qed.

Lemma flat_highFreq level :
  highFreq (analyse (flat level)) = IZR level / 255 * (22 / 21).
Proof.
  unfold analyse. cbn [highFreq].
  change (length (flat level) / 3)%nat with 42%nat.
  replace (reduce_sum (drop (42 * 2) (flat level))) with (44 * level)%Z
    by (unfold reduce_sum, flat; cbn; lia).
  rewrite INR_IZR_INZ. change (Z.of_nat 42) with 42%Z.
  rewrite mult_IZR. field.
Qed.

Lemma analyse_bounds (dataArray : list Z) :
  Forall isByte dataArray -> (3 <= length dataArray)%nat ->
  let b := analyse dataArray in
  let third := (length dataArray / 3)%nat in
  0 <= audioVolume b <= 1 /\
  0 <= lowFreq b <= 1 /\
  0 <= midFreq b <= 1 /\
  0 <= highFreq b <= INR (length dataArray - third * 2) / INR third.
Proof.
  intros Hbytes Hlen b third.
  assert (Hthird : (1 <= third)%nat).
  { unfold third. apply (Nat.div_le_lower_bound _ 3 1); lia. }
  assert (H3 : (third * 3 <= length dataArray)%nat).
  { unfold third. rewrite Nat.mul_comm. apply Nat.Div0.mul_div_le. }
  assert (Hk : 0 < INR third) by (apply lt_0_INR; lia).
  assert (Hn : 0 < INR (length dataArray)) by (apply lt_0_INR; lia).
  unfold b, analyse. cbn [audioVolume lowFreq midFreq highFreq]. fold third.
  assert (Hlow := reduce_sum_real _ (Forall_take _ third _ Hbytes)).
  rewrite length_take, Nat.min_l in Hlow by lia.
  assert (Hmid := reduce_sum_real _
                    (Forall_take _ third _ (Forall_drop _ third _ Hbytes))).
  rewrite length_take, length_drop, Nat.min_l in Hmid by lia.
  assert (Hhigh := reduce_sum_real _ (Forall_drop _ (third * 2) _ Hbytes)).
  rewrite length_drop in Hhigh.
  pose proof (band_bounds _ _ _ (reduce_sum_real _ Hbytes) Hn) as Hv.
  pose proof (band_bounds _ _ _ Hlow Hk) as Hl.
  pose proof (band_bounds _ _ _ Hmid Hk) as Hm.
  pose proof (band_bounds _ _ _ Hhigh Hk) as Hh.
  replace (INR (length dataArray) / INR (length dataArray)) with 1 in Hv
    by (field; lra).
  replace (INR third / INR third) with 1 in Hl, Hm by (field; lra).
  repeat split; lra.
Qed.

(** X5.  For a spectrum of bytes with three bins or more, the volume, the
    low band and the middle band lie in [0,1].  The high band sums the
    bins left after the first two thirds and divides by the size of a
    third: it lies between 0 and (bins left) / (size of a third), which
    exceeds 1 when the number of bins is no multiple of 3; with the 128
    bins of the analyser a spectrum at full level gives 22/21. *)
Theorem analyse_ranges (dataArray : list Z) :
  Forall isByte dataArray -> (3 <= length dataArray)%nat ->
  let b := analyse dataArray in
  let third := (length dataArray / 3)%nat in
  0 <= audioVolume b <= 1 /\
  0 <= lowFreq b <= 1 /\
  0 <= midFreq b <= 1 /\
  0 <= highFreq b <= INR (length dataArray - third * 2) / INR third /\
  highFreq (analyse (flat 255)) = 22 / 21.
Proof.
  intros Hbytes Hlen b third.
  destruct (analyse_bounds dataArray Hbytes Hlen) as (Hv & Hl & Hm & Hh).
  repeat apply conj; try apply Hv; try apply Hl; try apply Hm; try apply Hh.
  rewrite flat_highFreq. field.
Qed.

Lemma analyse_ranges_witness :
  0 <= audioVolume (analyse [10; 200; 255; 0]%Z) <= 1.
Proof.
  refine (proj1 (analyse_ranges [10; 200; 255; 0]%Z _ _)).
  - repeat constructor; unfold isByte; lia.
  - cbn. lia.
Defined.

(** ** Frames that read no spectrum *)

Lemma reachableVia_reachable ok rig0 s :
  reachableVia ok rig0 s -> reachable rig0 s.
Proof.
  induction 1 as [r Hr | s f _ IH _]; [apply reach_init, Hr | apply reach_step, IH].
Qed.

Lemma animateFrame_mouthShapes dt e a rnd st vrm :
  mouthShapes (fst (animateFrame dt e a rnd st vrm))
  = smoothMouth (mouthShapes st)
      (mouthTargets (isSpeaking (fst (frameSpeech dt a st)))
         (snd (frameSpeech dt a st))) dt.
Proof. frame_cases dt e a rnd st vrm; reflexivity. Qed.

Lemma silent_frame_idle s f :
  settled s ->
  isSpeaking (fst (frameSpeech (deltaTime f) (audio f) (fst s))) = false ->
  currentGesture (gesture (fst (step s f))) = 0%Z.
Proof.
  intros [_ Hgest] Hs.
  pose proof (step_gesture_timer s f) as Ht. cbv zeta in Ht.
  rewrite Hs in Ht. destruct (headPresent (snd s)).
  - injection Ht as _ Hcur _ _ _ _. exact Hcur.
  - injection Ht as _ Hcur _ _ _ _. rewrite Hcur. apply Hgest. reflexivity.
Qed.

Lemma deaf_frameSpeech f st :
  deafFrame f ->
  frameSpeech (deltaTime f) (audio f) st
  = (smoothSpeech (speech st) (deltaTime f), silence).
Proof.
  unfold deafFrame. destruct (audio f); [reflexivity | reflexivity | contradiction].
Qed.

Lemma smoothLerp_at_target target factor dt :
  smoothLerp target target factor dt = target.
Proof. unfold smoothLerp. ring. Qed.

(** X6.  While no frame reads a spectrum (no analyser was set up, or
    every read throws) the avatar never enters Speaking: after any number
    of such frames isSpeaking is false, the speech intensity and its
    target are 0, the four mouth shapes are 0, the gesture variant is the
    idle variant and the mood is neutral. *)
Theorem deaf_never_speaks (rig0 : Rig) (s : State * Rig) :
  reachableVia deafFrame rig0 s ->
  isSpeaking (speech (fst s)) = false /\
  speechIntensity (speech (fst s)) = 0 /\
  targetSpeechIntensity (speech (fst s)) = 0 /\
  mouthShapes (fst s) = {| aa := 0; ih := 0; ou := 0; oh := 0 |} /\
  currentGesture (gesture (fst s)) = 0%Z /\
  currentExpression (mood (fst s)) = Neutral.
Proof.
  induction 1 as [r Hr | s f Hreach IH Hdeaf].
  - repeat split; reflexivity.
  - destruct IH as (Hs & Hi & Ht & Hm & Hg & He).
    pose proof (reachable_settled rig0 s (reachableVia_reachable _ _ _ Hreach))
      as Hsettled.
    pose proof (deaf_frameSpeech f (fst s) Hdeaf) as Hread.
    assert (Hflag : isSpeaking (fst (frameSpeech (deltaTime f) (audio f)
                       (fst s))) = false)
      by (rewrite Hread; exact Hs).
    assert (Hspeech : speech (fst (step s f))
              = smoothSpeech (speech (fst s)) (deltaTime f)).
    { unfold step. rewrite animateFrame_speech, Hread. reflexivity. }
    repeat apply conj.
    + rewrite Hspeech. exact Hs.
    + rewrite Hspeech. cbn [smoothSpeech speechIntensity].
      rewrite Hi, Ht. apply smoothLerp_at_target.
    + rewrite Hspeech. exact Ht.
    + unfold step. rewrite animateFrame_mouthShapes, Hread.
      cbn [fst snd smoothSpeech isSpeaking]. rewrite Hs, Hm.
      unfold mouthTargets, smoothMouth. cbn [aa ih ou oh].
      rewrite smoothLerp_at_target. reflexivity.
    + apply silent_frame_idle; assumption.
    + unfold step. rewrite animateFrame_mood, Hflag.
      change (currentExpression (advanceExpression ?d ?m))
        with (currentExpression m).
      destruct Hsettled as [Hmood _].
      apply selectExpression_silent, Hmood.
Qed.

Lemma deaf_never_speaks_witness :
  isSpeaking (speech (fst (step (initialState 0, headRig) throwFrame))) = false.
Proof.
  refine (proj1 (deaf_never_speaks headRig _ _)).
  apply via_step; [apply via_init; unfold unit_draw; lra | exact I].
Defined.

(** ** The selection of a mood *)

Lemma pickExpression_draw r :
  unit_draw r ->
  (pickExpression r = Happy <-> 0 <= r < 0.25) /\
  (pickExpression r = Surprised <-> 0.25 <= r < 0.5) /\
  (pickExpression r = Thinking <-> 0.5 <= r < 0.75) /\
  (pickExpression r = Relaxed <-> 0.75 <= r < 1) /\
  pickExpression r <> Undefined.
Proof.
  intros Hr. unfold pickExpression.
  change (INR (length expressions)) with (INR 4).
  replace (INR 4) with (IZR 4) by (rewrite INR_IZR_INZ; reflexivity).
  pose proof (Math_floor_draw r 4 ltac:(lia) Hr) as Hrange.
  pose proof (proj1 (Math_floor_spec (r * 4) _) eq_refl) as Hspec.
  destruct (Math_floor (r * 4)) as [| p | p] eqn:Hfloor; try lia.
  - change (default Undefined (expressions !! Z.to_nat 0)) with Happy.
    cbn [Z.ltb Z.compare].
    repeat (split || intro); try congruence; try lra; exfalso; lra.
  - assert (Hp : (p = 1 \/ p = 2 \/ p = 3)%positive) by lia.
    destruct Hp as [-> | [-> | ->]]; cbn [Z.ltb Z.compare].
    + change (default Undefined (expressions !! Z.to_nat 1)) with Surprised.
      repeat (split || intro); try congruence; try lra; exfalso; lra.
    + change (default Undefined (expressions !! Z.to_nat 2)) with Thinking.
      repeat (split || intro); try congruence; try lra; exfalso; lra.
    + change (default Undefined (expressions !! Z.to_nat 3)) with Relaxed.
      repeat (split || intro); try congruence; try lra; exfalso; lra.
Qed.

(** X7.  While speaking, when the expression timer is due and the last
    transition is complete, a frame picks the new mood among happy,
    surprised, thinking and relaxed, one quarter of the draws each, keeps
    the old mood as the previous one, sets a target intensity in
    [0.25, 0.6) and the next selection 2.5 to 5.5 seconds ahead, and
    restarts the transition; while speaking with the timer not due or the
    transition under way, mood, target and timer are kept. *)
Theorem expression_selection (st : State) (rig : Rig) (f : Frame) :
  Random_ok (random f) ->
  let st' := fst (step (st, rig) f) in
  let m := mood st in
  let m' := mood st' in
  let now := elapsedTime f in
  let r := rndExpression (random f) in
  (isSpeaking (speech st') = true -> nextExpressionTime m <= now ->
   1 <= expressionTransitionProgress m ->
   (currentExpression m' = Happy <-> 0 <= r < 0.25) /\
   (currentExpression m' = Surprised <-> 0.25 <= r < 0.5) /\
   (currentExpression m' = Thinking <-> 0.5 <= r < 0.75) /\
   (currentExpression m' = Relaxed <-> 0.75 <= r < 1) /\
   previousExpression m' = currentExpression m /\
   0.25 <= targetExpressionIntensity m' < 0.6 /\
   now + 2.5 <= nextExpressionTime m' < now + 5.5 /\
   expressionTransitionProgress m' = Rmin 1 (0 + deltaTime f * 0.8)) /\
  (isSpeaking (speech st') = true ->
   now < nextExpressionTime m \/ expressionTransitionProgress m < 1 ->
   currentExpression m' = currentExpression m /\
   previousExpression m' = previousExpression m /\
   targetExpressionIntensity m' = targetExpressionIntensity m /\
   nextExpressionTime m' = nextExpressionTime m).
Proof.
  intros (Hr1 & Hr2 & Hr3 & _) st' m m' now r.
  assert (Hsp : isSpeaking (speech st')
            = isSpeaking (fst (frameSpeech (deltaTime f) (audio f) st))).
  { unfold st', step. rewrite animateFrame_speech. reflexivity. }
  assert (Hm : m' = advanceExpression (deltaTime f)
                      (selectExpression (isSpeaking (speech st')) now
                         (random f) m)).
  { rewrite Hsp. unfold m', st', step. apply animateFrame_mood. }
  split.
  - intros Hs Hdue Hdone. rewrite Hm, Hs. unfold selectExpression.
    rewrite !Rgeb_true by assumption. cbn [andb].
    unfold advanceExpression.
    cbn [currentExpression previousExpression targetExpressionIntensity
         nextExpressionTime expressionTransitionProgress].
    rewrite Rltb_true by lra.
    destruct (pickExpression_draw r Hr1) as (H1 & H2 & H3 & H4 & _).
    destruct Hr2 as [? ?], Hr3 as [? ?].
    refine (conj H1 (conj H2 (conj H3 (conj H4 _)))).
    repeat apply conj; try reflexivity; lra.
  - intros Hs Hwait. rewrite Hm, Hs. unfold selectExpression.
    replace (true && Rgeb now (nextExpressionTime m)
             && Rgeb (expressionTransitionProgress m) 1) with false.
    + cbn. repeat split; reflexivity.
    + destruct Hwait as [Hw | Hw].
      * rewrite (Rgeb_false _ _ Hw). reflexivity.
      * rewrite (Rgeb_false _ _ Hw). apply eq_sym, andb_false_r.
Qed.

Lemma expression_selection_witness :
  let st' := fst (step (initialState 0, headRig) entryFrame) in
  currentExpression (mood st') = Thinking /\
  previousExpression (mood st') = Neutral.
Proof.
  destruct (expression_selection (initialState 0) headRig entryFrame) as [H _].
  - unfold Random_ok, unit_draw. cbn. lra.
  - destruct H as (_ & _ & H3 & _ & Hprev & _).
    + unfold step. cbn [fst snd]. rewrite animateFrame_speech.
      unfold entryFrame. cbn [deltaTime audio]. rewrite frameSpeech_flat.
      apply Rgtb_true. cbn. lra.
    + cbn. lra.
    + cbn. lra.
    + split; [apply H3; cbn; lra | exact Hprev].
Defined.

(** ** Ranges kept by a frame *)

Lemma smoothLerp_range lo hi current target factor dt :
  0 < factor < 1 -> 0 <= dt ->
  lo <= current <= hi -> lo <= target <= hi ->
  lo <= smoothLerp current target factor dt <= hi.
Proof.
  intros Hf Hdt Hc Ht.
  destruct (smoothLerp_between current target factor dt Hf Hdt) as [Hup Hdown].
  destruct (Rle_dec current target) as [Hle | Hgt].
  - specialize (Hup Hle). lra.
  - specialize (Hdown ltac:(lra)). lra.
Qed.

Lemma audioAnalysis_range sp a :
  speechRange sp -> speechRange (fst (audioAnalysis sp a)).
Proof.
  intros [Hi Ht]. unfold audioAnalysis.
  destruct a as [| | dataArray]; try (split; assumption).
  destruct (bool_decide (0 < length dataArray)%nat); [| split; assumption].
  cbn [fst]. split; [exact Hi |].
  cbn [targetSpeechIntensity]. unfold detectSpeech. cbn [fst snd].
  destruct (Rgtb _ _) eqn:Hflag; [| split; lra].
  apply Rgtb_spec in Hflag.
  assert (0 < audioVolume (analyse dataArray))
    by (unfold speakingThreshold in Hflag; destruct (isSpeaking sp); lra).
  unfold Rmin. destruct (Rle_dec _ _); split; lra.
Qed.

Lemma frameSpeech_range dt a st :
  0 <= dt -> speechRange (speech st) ->
  speechRange (fst (frameSpeech dt a st)).
Proof.
  intros Hdt Hsp. unfold frameSpeech.
  pose proof (audioAnalysis_range (speech st) a Hsp) as Ha.
  destruct (audioAnalysis (speech st) a) as [sp bands]. cbn [fst] in *.
  destruct Ha as [Hi Ht]. split; [| exact Ht].
  cbn [smoothSpeech speechIntensity]. apply smoothLerp_range; lra.
Qed.

Lemma frameSpeech_bands dt a st :
  match a with
  | Spectrum dataArray => Forall isByte dataArray /\ (3 <= length dataArray)%nat
  | _ => True
  end ->
  let b := snd (frameSpeech dt a st) in
  0 <= lowFreq b /\ 0 <= midFreq b /\ 0 <= highFreq b.
Proof.
  intros Hvalid. unfold frameSpeech, audioAnalysis.
  destruct a as [| | dataArray];
    cbv zeta; cbn [fst snd silence lowFreq midFreq highFreq];
    try (repeat split; lra).
  destruct Hvalid as [Hbytes Hlen].
  destruct (bool_decide (0 < length dataArray)%nat);
    cbv zeta; cbn [fst snd silence lowFreq midFreq highFreq];
    [| repeat split; lra].
  destruct (analyse_bounds dataArray Hbytes Hlen) as (_ & Hl & Hm & Hh).
  cbv zeta in Hl, Hm, Hh. repeat split; lra.
Qed.

Lemma selectExpression_range speaking e rnd m :
  Random_ok rnd -> moodRange m -> moodRange (selectExpression speaking e rnd m).
Proof.
  intros (Hr1 & Hr2 & _) (Hp & Ht & Hi & Hm). unfold selectExpression.
  destruct (speaking && Rgeb e (nextExpressionTime m)
            && Rgeb (expressionTransitionProgress m) 1).
  - destruct Hr2 as [? ?]. repeat split; cbn; try lra.
    apply (pickExpression_draw _ Hr1).
  - destruct (negb speaking && negb (Mood_eqb (currentExpression m) Neutral)).
    + repeat split; cbn; try lra. discriminate.
    + repeat split; assumption || lra.
Qed.

Lemma advanceExpression_range dt m :
  0 <= dt -> moodRange m -> moodRange (advanceExpression dt m).
Proof.
  intros Hdt (Hp & Ht & Hi & Hm). unfold advanceExpression.
  split; [| split; [| split]]; cbn.
  - unfold Rltb, Rmin.
    destruct (Rlt_dec _ _); [destruct (Rle_dec _ _) |]; lra.
  - exact Ht.
  - apply smoothLerp_range; lra.
  - exact Hm.
Qed.

Lemma gestureTargets_eyebrow k p e : 0 <= snd (gestureTargets k p e) <= 0.2.
Proof.
  unfold gestureTargets.
  repeat match goal with
         | |- context [match ?v with _ => _ end] => destruct v
         end; cbn; lra.
Qed.

Lemma selectGesture_range e rnd g :
  Random_ok rnd -> gestureRange g -> gestureRange (selectGesture e rnd g).
Proof.
  intros (_ & _ & _ & _ & Hr & _) (Hp & Hc & He & Ht). unfold selectGesture.
  destruct (Rgeb e (nextGestureTime g)); [| repeat split; assumption || lra || lia].
  pose proof (Math_floor_draw _ 7 ltac:(lia) Hr).
  repeat split; cbn; try lra; lia.
Qed.

Lemma speakingGesture_range si dt e g :
  0 <= dt -> gestureRange g -> gestureRange (speakingGesture si dt e g).
Proof.
  intros Hdt (Hp & Hc & He & Ht). unfold speakingGesture.
  pose proof (gestureTargets_eyebrow (currentGesture g)
                (gesturePhase g + dt) e) as Hbrow.
  destruct (gestureTargets _ _ _) as [[newHead newNeck] newEyebrow].
  cbn [snd] in Hbrow.
  split; [| split; [| split]]; cbn.
  - unfold Rltb, Rmin.
    destruct (Rlt_dec _ _); [destruct (Rle_dec _ _) |]; lra.
  - exact Hc.
  - exact He.
  - exact Hbrow.
Qed.

Lemma idleGesture_range e g : gestureRange g -> gestureRange (idleGesture e g).
Proof.
  intros (Hp & Hc & He & Ht). repeat split; cbn; try lra; try lia.
Qed.

Lemma smoothEyebrow_range dt g :
  0 <= dt -> gestureRange g -> gestureRange (smoothEyebrow dt g).
Proof.
  intros Hdt (Hp & Hc & He & Ht).
  split; [| split; [| split]]; cbn; try assumption.
  apply smoothLerp_range; lra.
Qed.

Lemma gestureStep_range s si dt e rnd g bones :
  0 <= dt -> Random_ok rnd -> gestureRange g ->
  gestureRange (fst (gestureStep s si dt e rnd g bones)).
Proof.
  intros Hdt Hrnd Hg. unfold gestureStep. cbn [fst].
  apply smoothEyebrow_range; [exact Hdt |].
  assert (Hhead : gestureRange
            (if hasBone "head" bones
             then headGesture s si dt e rnd g else g)).
  { destruct (hasBone "head" bones); [| exact Hg].
    unfold headGesture.
    assert (Hb : gestureRange
              (if s then speakingGesture si dt e (selectGesture e rnd g)
               else idleGesture e g)).
    { destruct s.
      - apply speakingGesture_range, selectGesture_range; assumption.
      - apply idleGesture_range, Hg. }
    destruct Hb as (Hp & Hc & He & Ht).
    split; [| split; [| split]]; assumption. }
  destruct (hasBone "neck" _); [| exact Hhead].
  destruct Hhead as (Hp & Hc & He & Ht).
  split; [| split; [| split]]; assumption.
Qed.

Lemma animateFrame_gesture_any dt e a rnd st vrm :
  let sp := fst (frameSpeech dt a st) in
  gesture (fst (animateFrame dt e a rnd st vrm))
  = match humanoid vrm with
    | Some bones =>
        fst (gestureStep (isSpeaking sp) (speechIntensity sp) dt e rnd
               (gesture st)
               (breathe (isSpeaking sp) (speechIntensity sp) e bones))
    | None => gesture st
    end.
Proof.
  destruct vrm as [em [bones |]]; cbn [humanoid].
  - apply animateFrame_gesture.
  - apply animateFrame_no_humanoid.
Qed.

Lemma animateFrame_targetExpressions dt e a rnd st vrm :
  let st' := fst (animateFrame dt e a rnd st vrm) in
  targetExpressionValues st'
  = expressionTargets (isSpeaking (speech st')) (mood st')
      (speechIntensity (speech st')) (blinkTarget e (nextBlinkTime st')).
Proof. frame_cases dt e a rnd st vrm; reflexivity. Qed.

Lemma blinkTarget_unit e n : 0 <= blinkTarget e n <= 1.
Proof. apply easeInOutCubic_unit, blinkProgress_unit. Qed.

Lemma expressionTargets_range speaking m si blinkT :
  moodRange m -> 0 <= si <= 1 -> 0 <= blinkT <= 1 ->
  expressionRange (expressionTargets speaking m si blinkT).
Proof.
  intros (Hp & Ht & Hi & Hm) Hsi Hb.
  pose proof (easeInOutQuad_unit _ Hp) as He.
  unfold expressionTargets, expressionRange, unit_range.
  destruct speaking; [destruct (currentExpression m) |]; cbn;
    repeat split; try lra; nra.
Qed.

Lemma smoothExpressions_range current target dt :
  0 <= dt -> expressionRange current -> expressionRange target ->
  expressionRange (smoothExpressions current target dt).
Proof.
  unfold expressionRange, unit_range.
  intros Hdt (H1 & H2 & H3 & H4 & H5 & H6 & H7)
    (T1 & T2 & T3 & T4 & T5 & T6 & T7).
  cbn. rewrite H6, T6, H7, T7, !smoothLerp_at_target.
  refine (conj _ (conj _ (conj _ (conj _ (conj _ (conj eq_refl eq_refl))))));
    apply smoothLerp_range; lra.
Qed.

Lemma smoothLerp_nonneg current target factor dt :
  0 < factor < 1 -> 0 <= dt -> 0 <= current -> 0 <= target ->
  0 <= smoothLerp current target factor dt.
Proof.
  intros Hf Hdt Hc Ht.
  destruct (smoothLerp_between current target factor dt Hf Hdt) as [Hup Hdown].
  destruct (Rle_dec current target) as [Hle | Hgt].
  - specialize (Hup Hle). lra.
  - specialize (Hdown ltac:(lra)). lra.
Qed.

Lemma smoothMouth_range current target dt :
  0 <= dt -> mouthRange current -> mouthRange target ->
  mouthRange (smoothMouth current target dt).
Proof.
  unfold mouthRange. intros Hdt (H1 & H2 & H3 & H4) (T1 & T2 & T3 & T4).
  cbn. repeat split; apply smoothLerp_nonneg; lra.
Qed.

Lemma mouthTargets_range speaking b :
  0 <= lowFreq b /\ 0 <= midFreq b /\ 0 <= highFreq b ->
  mouthRange (mouthTargets speaking b).
Proof.
  intros (Hl & Hm & Hh). unfold mouthTargets, mouthRange.
  destruct speaking; cbn; repeat split; lra.
Qed.

Lemma inRange_initial r : unit_draw r -> inRange (initialState r).
Proof.
  intros _. unfold inRange, speechRange, moodRange, gestureRange,
    expressionRange, mouthRange, unit_range. cbn.
  repeat split; try lra; try lia; discriminate.
Qed.

Lemma inRange_step s f : validFrame f -> inRange (fst s) -> inRange (fst (step s f)).
Proof.
  intros (Hdt & Hrnd & Hdata) (Hsp & Hmood & Hgest & Hexpr & Hmouth).
  unfold step.
  assert (Hsp' : speechRange (speech (fst (animateFrame (deltaTime f)
                    (elapsedTime f) (audio f) (random f) (fst s) (snd s))))).
  { rewrite animateFrame_speech. apply frameSpeech_range; assumption. }
  assert (Hmood' : moodRange (mood (fst (animateFrame (deltaTime f)
                    (elapsedTime f) (audio f) (random f) (fst s) (snd s))))).
  { rewrite animateFrame_mood.
    apply advanceExpression_range, selectExpression_range; assumption. }
  split; [exact Hsp' | split; [exact Hmood' | split; [| split]]].
  - rewrite animateFrame_gesture_any.
    destruct (humanoid (snd s)); [| exact Hgest].
    apply gestureStep_range; assumption.
  - rewrite animateFrame_expressionValues.
    apply smoothExpressions_range; [exact Hdt | exact Hexpr |].
    rewrite animateFrame_targetExpressions.
    apply expressionTargets_range;
      [exact Hmood' | apply Hsp' | apply blinkTarget_unit].
  - rewrite animateFrame_mouthShapes.
    apply smoothMouth_range; [exact Hdt | exact Hmouth |].
    apply mouthTargets_range, frameSpeech_bands, Hdata.
Qed.

Lemma reachableVia_inRange rig0 s :
  reachableVia validFrame rig0 s -> inRange (fst s).
Proof.
  induction 1 as [r Hr | s f _ IH Hf].
  - apply inRange_initial, Hr.
  - apply inRange_step; assumption.
Qed.

(** X8.  Through frames whose duration is not negative, whose draws are in
    [0,1) and whose spectra are bytes, the state stays in range: the
    speech intensity and its target in [0,1], both transition progresses
    in [0,1], the expression intensity and its target in [0,0.6], the
    gesture variant among 0..6, the eyebrow intensity in [0,0.2], every
    smoothed expression weight in [0,1] with "sad" and "angry" at 0, the
    mouth shapes not negative, and the mood never undefined. *)
Theorem state_ranges (rig0 : Rig) (s : State * Rig) :
  reachableVia validFrame rig0 s ->
  let st := fst s in
  0 <= speechIntensity (speech st) <= 1 /\
  0 <= targetSpeechIntensity (speech st) <= 1 /\
  0 <= expressionTransitionProgress (mood st) <= 1 /\
  0 <= gestureTransitionProgress (gesture st) <= 1 /\
  0 <= expressionIntensity (mood st) <= 0.6 /\
  0 <= targetExpressionIntensity (mood st) <= 0.6 /\
  (0 <= currentGesture (gesture st) <= 6)%Z /\
  0 <= eyebrowIntensity (gesture st) <= 0.2 /\
  0 <= happy (expressionValues st) <= 1 /\
  0 <= surprised (expressionValues st) <= 1 /\
  0 <= relaxed (expressionValues st) <= 1 /\
  0 <= neutral (expressionValues st) <= 1 /\
  0 <= blink (expressionValues st) <= 1 /\
  sad (expressionValues st) = 0 /\ angry (expressionValues st) = 0 /\
  0 <= aa (mouthShapes st) /\ 0 <= ih (mouthShapes st) /\
  0 <= ou (mouthShapes st) /\ 0 <= oh (mouthShapes st) /\
  currentExpression (mood st) <> Undefined.
Proof.
  intros Hreach. cbv zeta.
  destruct (reachableVia_inRange rig0 s Hreach)
    as ((Hi & Ht) & (Hp & Hte & Hie & Hm) & (Hgp & Hc & He & _)
        & (E1 & E2 & E3 & E4 & E5 & E6 & E7) & (M1 & M2 & M3 & M4)).
  unfold unit_range in *.
  repeat apply conj; assumption || lra || lia.
Qed.

Lemma validFrame_entry : validFrame entryFrame.
Proof.
  unfold validFrame, Random_ok, unit_draw. cbn [deltaTime random audio entryFrame draws
    rndExpression rndExpressionIntensity rndExpressionTime rndBlink
    rndGesture rndGestureTime].
  repeat split; try lra.
  - unfold flat. apply Forall_replicate. unfold isByte. lia.
  - unfold flat. rewrite length_replicate. lia.
Qed.

Lemma state_ranges_witness :
  0 <= speechIntensity
         (speech (fst (step (initialState 0, headRig) entryFrame))) <= 1.
Proof.
  refine (proj1 (state_ranges headRig _ _)).
  apply via_step; [apply via_init; unfold unit_draw; lra | apply validFrame_entry].
Defined.

(** ** What a frame writes to the rig *)

Lemma applyExpressions_lookup mouth ev (em : gmap string R) :
  let em' := applyExpressions mouth ev em in
  em' !! "aa" = Some (Rmin (aa mouth) 1) /\
  em' !! "ih" = Some (Rmin (ih mouth) 1) /\
  em' !! "ou" = Some (Rmin (ou mouth) 1) /\
  em' !! "oh" = Some (Rmin (oh mouth) 1) /\
  em' !! "blink" = Some (blink ev) /\
  em' !! "happy" = Some (happy ev) /\
  em' !! "surprised" = Some (surprised ev) /\
  em' !! "relaxed" = Some (relaxed ev) /\
  em' !! "neutral" = Some (neutral ev).
Proof.
  unfold applyExpressions, setValue.
  repeat split; rewrite ?lookup_insert_ne by done; apply lookup_insert_eq.
Qed.

Lemma applyExpressions_other mouth ev (em : gmap string R) name :
  name ∉ appliedExpressions ->
  applyExpressions mouth ev em !! name = em !! name.
Proof.
  unfold appliedExpressions. intros H.
  repeat (apply not_elem_of_cons in H as [? H]).
  unfold applyExpressions, setValue.
  rewrite !lookup_insert_ne by congruence. reflexivity.
Qed.

Lemma Rmin_unit a : 0 <= a -> 0 <= Rmin a 1 <= 1.
Proof. intros Ha. unfold Rmin. destruct (Rle_dec a 1); lra. Qed.

Lemma applyExpressions_unit mouth ev (em : gmap string R) name :
  mouthRange mouth -> expressionRange ev -> name ∈ appliedExpressions ->
  exists w, applyExpressions mouth ev em !! name = Some w /\ 0 <= w <= 1.
Proof.
  intros (M1 & M2 & M3 & M4) (E1 & E2 & E3 & E4 & E5 & _) Hname.
  destruct (applyExpressions_lookup mouth ev em)
    as (L1 & L2 & L3 & L4 & L5 & L6 & L7 & L8 & L9).
  unfold appliedExpressions in Hname.
  repeat (apply elem_of_cons in Hname as [-> | Hname]);
    [ | | | | | | | | | apply elem_of_nil in Hname; contradiction ];
    eexists; (split; [eassumption |]);
    first [ apply Rmin_unit; assumption | assumption ].
Qed.

Lemma applyEyebrow_lookup speaking m eyebrow (em : gmap string R) name :
  applyEyebrow speaking m eyebrow em !! name
  = if speaking && Mood_eqb m Neutral && bool_decide (name = "surprised")
    then Some (eyebrow * 0.15)
    else em !! name.
Proof.
  unfold applyEyebrow, setValue.
  destruct (speaking && Mood_eqb m Neutral); cbn [andb]; [| reflexivity].
  destruct (bool_decide (name = "surprised")) eqn:Hn.
  - apply bool_decide_eq_true in Hn as ->. apply lookup_insert_eq.
  - apply bool_decide_eq_false in Hn. apply lookup_insert_ne. congruence.
Qed.

(** X9.  Through valid frames, on a rig with an expression manager, every
    weight a frame sets, for the four mouth shapes, "blink", "happy",
    "surprised", "relaxed" and "neutral", lies in [0,1], although the code
    clamps the mouth shapes only; and the frame sets no other name: the
    weight of "sad", "angry" or any other expression is left as it was. *)
Theorem applied_weights (rig0 : Rig) (s : State * Rig) (f : Frame)
    (em : gmap string R) :
  reachableVia validFrame rig0 s -> validFrame f ->
  expressionManager (snd s) = Some em ->
  exists em',
    expressionManager (snd (step s f)) = Some em' /\
    (forall name, name ∈ appliedExpressions ->
       exists w, em' !! name = Some w /\ 0 <= w <= 1) /\
    (forall name, name ∉ appliedExpressions -> em' !! name = em !! name).
Proof.
  intros Hreach Hvalid Hem.
  assert (Hnext : inRange (fst (step s f)))
    by (apply inRange_step; [exact Hvalid | eapply reachableVia_inRange, Hreach]).
  destruct Hnext as (_ & _ & (_ & _ & Hbrow & _) & Hexpr & Hmouth).
  pose proof (animateFrame_expressionManager (deltaTime f) (elapsedTime f)
                (audio f) (random f) (fst s) (snd s)) as Hm.
  cbv zeta in Hm. rewrite Hem in Hm.
  change (animateFrame _ _ _ _ _ _) with (step s f) in Hm.
  cbn [fmap option_fmap option_map] in Hm.
  destruct (humanoid (snd s)); eexists; (split; [exact Hm |]); split.
  - intros name Hname. rewrite applyEyebrow_lookup.
    destruct (_ && _ && _).
    + eexists. split; [reflexivity | lra].
    + apply applyExpressions_unit; assumption.
  - intros name Hname. rewrite applyEyebrow_lookup.
    replace (bool_decide (name = "surprised")) with false.
    + rewrite andb_false_r. apply applyExpressions_other, Hname.
    + symmetry. apply bool_decide_eq_false. intros ->. apply Hname.
      unfold appliedExpressions. in_list.
  - intros name Hname. apply applyExpressions_unit; assumption.
  - intros name Hname. apply applyExpressions_other, Hname.
Qed.

Lemma applied_weights_witness :
  exists em',
    expressionManager (snd (step (initialState 0, headRig) entryFrame))
    = Some em' /\ em' !! "sad" = None.
Proof.
  destruct (applied_weights headRig (initialState 0, headRig) entryFrame ∅)
    as (em' & Hem & _ & Hother).
  - apply via_init. unfold unit_draw. lra.
  - apply validFrame_entry.
  - reflexivity.
  - exists em'. split; [exact Hem |].
    rewrite Hother; [apply lookup_empty |].
    unfold appliedExpressions. intros H.
    repeat (apply elem_of_cons in H as [H | H]; [discriminate |]).
    apply elem_of_nil in H. exact H.
Defined.

(** X10.  A frame keeps the set of bones of the rig, and writes only the
    bones it names: the rotation of any bone that is neither spine, chest,
    head, neck, an arm, a hand, a shoulder, hips nor a finger bone is left
    as it was, and a rig without humanoid stays without, its gesture and
    body state untouched. *)
Theorem frame_touches_named_bones (st : State) (rig : Rig) (f : Frame) :
  match humanoid rig, humanoid (snd (step (st, rig) f)) with
  | Some bones, Some bones' =>
      (forall name, is_Some (bones' !! name) <-> is_Some (bones !! name)) /\
      (forall name, name ∉ otherBones -> name ∉ fingerBones ->
         bones' !! name = bones !! name)
  | None, None =>
      gesture (fst (step (st, rig) f)) = gesture st /\
      body (fst (step (st, rig) f)) = body st
  | _, _ => False
  end.
Proof.
  unfold step. cbn [fst snd].
  destruct (humanoid rig) as [bones |] eqn:Hrig.
  - rewrite (animateFrame_bones _ _ _ _ _ _ bones Hrig). cbv zeta. split.
    + intros name.
      pose proof (hasBone_humanoidStep
        (isSpeaking (fst (frameSpeech (deltaTime f) (audio f) st)))
        (speechIntensity (fst (frameSpeech (deltaTime f) (audio f) st)))
        (deltaTime f) (elapsedTime f) (random f) (gesture st) (body st)
        name bones) as Hb.
      unfold hasBone in Hb. split; intros H.
      * apply (bool_decide_eq_true_2 _) in H. rewrite Hb in H.
        apply bool_decide_eq_true in H. exact H.
      * apply (bool_decide_eq_true_2 _) in H. rewrite <- Hb in H.
        apply bool_decide_eq_true in H. exact H.
    + intros name Hother Hfinger.
      rewrite humanoidStep_bones, lookup_fingers_other by exact Hfinger.
      apply lookup_before_fingers, Hother.
  - unfold animateFrame. destruct (frameSpeech _ _ _) as [sp bands].
    rewrite Hrig. cbn. split; reflexivity.
Qed.

(** ** Blinking and the timer *)

(** X11.  On a frame that finds the blink timer due, the blink target is
    0, whether the timer is reseeded (silent) or kept (speaking): a blink
    ends when its timer is reached, and while the avatar keeps speaking
    after that no new blink starts. *)
Theorem blink_waits (st : State) (rig : Rig) (f : Frame) :
  unit_draw (rndBlink (random f)) ->
  nextBlinkTime st <= elapsedTime f ->
  let st' := fst (step (st, rig) f) in
  blink (targetExpressionValues st') = 0 /\
  (isSpeaking (speech st') = true -> nextBlinkTime st' = nextBlinkTime st).
Proof.
  intros [Hr0 Hr1] Hdue st'.
  assert (Hnext : nextBlinkTime st'
            = reseedBlink (isSpeaking (speech st')) (elapsedTime f)
                (random f) (nextBlinkTime st)).
  { unfold st', step. cbn [fst snd].
    rewrite animateFrame_speech. apply animateFrame_nextBlinkTime. }
  split.
  - unfold st', step. cbn [fst snd]. rewrite animateFrame_blink_target.
    change (animateFrame _ _ _ _ _ _) with (step (st, rig) f).
    fold st'. rewrite Hnext. unfold blinkTarget.
    rewrite blinkProgress_outside; [apply easeInOutCubic_0 |].
    unfold reseedBlink. rewrite Rgeb_true by exact Hdue.
    destruct (isSpeaking (speech st')); cbn [andb negb]; lra.
  - intros Hs. rewrite Hnext. apply reseedBlink_kept. right. exact Hs.
Qed.

Lemma blink_waits_witness :
  blink (targetExpressionValues
           (fst (step (initialState 0, headRig) throwFrame))) = 0.
Proof.
  refine (proj1 (blink_waits (initialState 0) headRig throwFrame _ _)).
  - unfold unit_draw. cbn. lra.
  - cbn. lra.
Defined.

(** ** Falling back to idle *)

Lemma silent_target rig0 s :
  reachable rig0 s ->
  isSpeaking (speech (fst s)) = false ->
  targetSpeechIntensity (speech (fst s)) = 0.
Proof.
  induction 1 as [r Hr | s f _ IH]; [reflexivity |].
  unfold step. rewrite animateFrame_speech. unfold frameSpeech, audioAnalysis.
  destruct (audio f) as [| | dataArray].
  - exact IH.
  - exact IH.
  - destruct (bool_decide (0 < length dataArray)%nat); [| exact IH].
    cbv zeta. cbn [fst smoothSpeech isSpeaking targetSpeechIntensity].
    unfold detectSpeech. cbn [fst snd]. intros ->. reflexivity.
Qed.

Lemma quiet_frameSpeech f st :
  quietFrame f -> isSpeaking (speech st) = false ->
  targetSpeechIntensity (speech st) = 0 ->
  fst (frameSpeech (deltaTime f) (audio f) st)
  = {| isSpeaking := false;
       speechIntensity :=
         smoothLerp (speechIntensity (speech st)) 0 0.15 (deltaTime f);
       targetSpeechIntensity := 0 |}.
Proof.
  unfold quietFrame, frameSpeech, audioAnalysis. intros Hq Hs Ht.
  assert (Hkept : smoothSpeech (speech st) (deltaTime f)
            = {| isSpeaking := false;
                 speechIntensity :=
                   smoothLerp (speechIntensity (speech st)) 0 0.15 (deltaTime f);
                 targetSpeechIntensity := 0 |}).
  { unfold smoothSpeech. rewrite Hs, Ht. reflexivity. }
  destruct (audio f) as [| | dataArray].
  - exact Hkept.
  - exact Hkept.
  - destruct (bool_decide (0 < length dataArray)%nat); [| exact Hkept].
    cbv zeta. rewrite Hs, detectSpeech_silent by exact Hq. reflexivity.
Qed.

Lemma boneZ_step s f name i :
  fingerBones !! i = Some name ->
  let sp := fst (frameSpeech (deltaTime f) (audio f) (fst s)) in
  boneZ (snd (step s f)) name
  = (fun a =>
       smoothLerp a
         (fingerCurl (isSpeaking sp) (speechIntensity sp) (elapsedTime f) i)
         0.1 (deltaTime f)) <$> boneZ (snd s) name.
Proof.
  intros Hi sp. unfold boneZ, step.
  destruct (humanoid (snd s)) as [bones |] eqn:Hrig.
  - rewrite (animateFrame_bones _ _ _ _ _ _ bones Hrig). cbv zeta.
    cbn [mbind option_bind]. rewrite (finger_smoothed _ _ _ _ _ _ _ _ i name Hi).
    fold sp. destruct (bones !! name); reflexivity.
  - pose proof (animateFrame_humanoid (deltaTime f) (elapsedTime f) (audio f)
                  (random f) (fst s) (snd s)) as Hshape.
    rewrite Hrig in Hshape.
    destruct (humanoid (snd (animateFrame _ _ _ _ _ _)));
      [contradiction | reflexivity].
Qed.

(** One quiet frame from a silent state. *)
Lemma quiet_step rig0 s f :
  reachable rig0 s -> isSpeaking (speech (fst s)) = false -> quietFrame f ->
  let dt := deltaTime f in
  isSpeaking (speech (fst (step s f))) = false /\
  speechIntensity (speech (fst (step s f)))
  = smoothLerp (speechIntensity (speech (fst s))) 0 0.15 dt /\
  mouthShapes (fst (step s f))
  = smoothMouth (mouthShapes (fst s)) {| aa := 0; ih := 0; ou := 0; oh := 0 |} dt /\
  (forall name, name ∈ fingerBones ->
     boneZ (snd (step s f)) name
     = (fun a => smoothLerp a 0 0.1 dt) <$> boneZ (snd s) name).
Proof.
  intros Hreach Hs Hq dt.
  pose proof (quiet_frameSpeech f (fst s) Hq Hs (silent_target _ _ Hreach Hs))
    as Hsp.
  repeat apply conj.
  - unfold step. rewrite animateFrame_speech, Hsp. reflexivity.
  - unfold step. rewrite animateFrame_speech, Hsp. reflexivity.
  - unfold step. rewrite animateFrame_mouthShapes, Hsp. reflexivity.
  - intros name Hname. apply list_elem_of_lookup_1 in Hname as [i Hi].
    rewrite (boneZ_step s f name i Hi). cbv zeta. rewrite Hsp. reflexivity.
Qed.

Lemma smoothLerp_join current factor d1 d2 :
  0 < factor < 1 ->
  smoothLerp (smoothLerp current 0 factor d1) 0 factor d2
  = smoothLerp current 0 factor (d1 + d2).
Proof.
  intros Hf. rewrite !smoothLerp_decay by exact Hf.
  replace ((d1 + d2) * 60) with (d1 * 60 + d2 * 60) by ring.
  rewrite Rpower_plus. ring.
Qed.

Lemma smoothLerp_still current factor : smoothLerp current 0 factor 0 = current.
Proof. unfold smoothLerp. rewrite Rmult_0_l, Math_pow_0_r. ring. Qed.



(** ** The reach of arms and hands *)

Lemma gestureIntensity_bounds si : 0 <= si -> 0 <= gestureIntensity si <= 0.24.
Proof.
  intros Hsi. unfold gestureIntensity, Rmin, Rgtb.
  destruct (Rle_dec (si * 0.25) 0.15); destruct (Rlt_dec 0.5 si); split; nra.
Qed.

Lemma swing_bounds u g c :
  -1 <= u <= 1 -> 0 <= g <= 0.24 -> 0 <= c ->
  - (0.24 * c) <= u * g * c <= 0.24 * c.
Proof.
  intros Hu Hg Hc.
  assert (H1 : - g <= u * g <= g) by (split; nra).
  assert (H2 : - (g * c) <= u * g * c <= g * c) by (split; nra).
  assert (H3 : g * c <= 0.24 * c) by nra.
  lra.
Qed.

Lemma armTargets_range s si e b :
  0 <= si -> bodyTargetRange (armTargets s si e b).
Proof.
  intros Hsi. pose proof (gestureIntensity_bounds si Hsi) as Hg.
  unfold armTargets. destruct s;
    unfold bodyTargetRange, armBox, handBox, lowerArmBox, within; cbn.
  - pose proof (swing_bounds _ _ 1.2 (SIN_bound (e * 1.1)) Hg ltac:(lra)).
    pose proof (swing_bounds _ _ 0.7 (COS_bound (e * 0.85)) Hg ltac:(lra)).
    pose proof (swing_bounds _ _ 0.6 (SIN_bound (e * 0.75)) Hg ltac:(lra)).
    pose proof (swing_bounds _ _ 1.2 (SIN_bound (e * 1.1 + 1.5)) Hg ltac:(lra)).
    pose proof (swing_bounds _ _ 0.6 (SIN_bound (e * 0.75 + 1.5)) Hg ltac:(lra)).
    pose proof (swing_bounds _ _ 1.1 (SIN_bound (e * 1.4)) Hg ltac:(lra)).
    pose proof (swing_bounds _ _ 1.1 (COS_bound (e * 1.4)) Hg ltac:(lra)).
    pose proof (swing_bounds _ _ 0.4 (SIN_bound (e * 1.6)) Hg ltac:(lra)).
    pose proof (swing_bounds _ _ 0.35 (COS_bound (e * 1.3)) Hg ltac:(lra)).
    pose proof (swing_bounds _ _ 0.35 (SIN_bound (e * 1.1)) Hg ltac:(lra)).
    pose proof (swing_bounds _ _ 0.4 (SIN_bound (e * 1.6 + 1)) Hg ltac:(lra)).
    pose proof (swing_bounds _ _ 0.35 (COS_bound (e * 1.1)) Hg ltac:(lra)).
    repeat split; lra.
  - pose proof (SIN_bound (e * 0.65)). pose proof (SIN_bound (e * 0.65 + PI)).
    repeat split; lra.
Qed.

Lemma smoothVec3_within current target dt cx rx cy ry cz rz :
  0 <= dt ->
  within current cx rx cy ry cz rz -> within target cx rx cy ry cz rz ->
  within (smoothVec3 current target 0.1 dt) cx rx cy ry cz rz.
Proof.
  intros Hdt (Cx & Cy & Cz) (Tx & Ty & Tz). unfold within, smoothVec3. cbn.
  split; [| split]; apply smoothLerp_range; lra.
Qed.

Lemma smoothArms_range dt b :
  0 <= dt -> bodyRange b -> bodyTargetRange b -> bodyRange (smoothArms dt b).
Proof.
  intros Hdt (B1 & B2 & B3 & B4 & B5 & B6) (T1 & T2 & T3 & T4 & T5 & T6).
  unfold bodyRange, smoothArms. cbn.
  split; [| split; [| split; [| split; [| split]]]].
  - apply smoothVec3_within; assumption.
  - apply smoothVec3_within; assumption.
  - apply smoothLerp_range; [lra | exact Hdt | exact B3 | exact T3].
  - apply smoothLerp_range; [lra | exact Hdt | exact B4 | exact T4].
  - apply smoothVec3_within; assumption.
  - apply smoothVec3_within; assumption.
Qed.

Lemma armTargets_current s si e b :
  bodyRange b -> bodyRange (armTargets s si e b).
Proof. intros H. unfold armTargets. destruct s; exact H. Qed.

Lemma animateFrame_body dt e a rnd st vrm :
  let sp := fst (frameSpeech dt a st) in
  body (fst (animateFrame dt e a rnd st vrm))
  = match humanoid vrm with
    | Some _ =>
        smoothArms dt
          (armTargets (isSpeaking sp) (speechIntensity sp) e (body st))
    | None => body st
    end.
Proof.
  unfold animateFrame. destruct (frameSpeech dt a st) as [sp bands].
  destruct (humanoid vrm) as [bones |]; [| reflexivity].
  unfold humanoidStep. destruct (gestureStep _ _ _ _ _ _ _) as [g' bones2].
  reflexivity.
Qed.

Lemma reachableVia_bodyRange rig0 s :
  reachableVia validFrame rig0 s -> bodyRange (body (fst s)).
Proof.
  induction 1 as [r Hr | s f Hreach IH Hf].
  - unfold bodyRange, armBox, handBox, lowerArmBox, within. cbn.
    repeat split; lra.
  - unfold step. rewrite animateFrame_body.
    destruct (humanoid (snd s)); [| exact IH].
    destruct Hf as (Hdt & _).
    apply smoothArms_range; [exact Hdt | apply armTargets_current, IH |].
    apply armTargets_range.
    apply (frameSpeech_range (deltaTime f) (audio f) (fst s) Hdt).
    apply reachableVia_inRange in Hreach. apply Hreach.
Qed.

(** X13.  Through valid frames the smoothed rotations of the arms never
    leave a fixed box around the rest pose: an upper arm stays within
    0.288 about x and 0.168 about y of 0 and within 0.144 of its rest
    angle -1.2 (left) or 1.2 (right) about z, a lower arm within 0.264 of
    -0.2, a hand within 0.096 about x and 0.084 about y and z of 0. *)
Theorem arms_stay_in_reach (rig0 : Rig) (s : State * Rig) :
  reachableVia validFrame rig0 s ->
  let b := body (fst s) in
  (-0.288 <= x (leftArmRotation b) <= 0.288 /\
   -0.168 <= y (leftArmRotation b) <= 0.168 /\
   -1.344 <= z (leftArmRotation b) <= -1.056) /\
  (-0.288 <= x (rightArmRotation b) <= 0.288 /\
   -0.168 <= y (rightArmRotation b) <= 0.168 /\
   1.056 <= z (rightArmRotation b) <= 1.344) /\
  -0.464 <= leftLowerArmRotation b <= 0.064 /\
  -0.464 <= rightLowerArmRotation b <= 0.064 /\
  (-0.096 <= x (left (handRotation b)) <= 0.096 /\
   -0.084 <= y (left (handRotation b)) <= 0.084 /\
   -0.084 <= z (left (handRotation b)) <= 0.084) /\
  (-0.096 <= x (right (handRotation b)) <= 0.096 /\
   -0.084 <= y (right (handRotation b)) <= 0.084 /\
   -0.084 <= z (right (handRotation b)) <= 0.084).
Proof.
  intros Hreach. cbv zeta.
  destruct (reachableVia_bodyRange rig0 s Hreach)
    as (B1 & B2 & B3 & B4 & B5 & B6).
  unfold armBox, handBox, lowerArmBox, within in *.
  repeat split; lra.
Qed.

Lemma arms_stay_in_reach_witness :
  -0.464
  <= leftLowerArmRotation
       (body (fst (step (initialState 0, headRig) entryFrame))) <= 0.064.
Proof.
  refine (proj1 (proj2 (proj2 (arms_stay_in_reach headRig _ _)))).
  apply via_step; [apply via_init; unfold unit_draw; lra | apply validFrame_entry].
Defined.

(** ** Orbit controls *)

Lemma PI_above_3 : 3 < PI.
Proof. pose proof PI2_3_2. lra. Qed.

Lemma clamp_range lo hi a : lo <= hi -> lo <= Rmax lo (Rmin hi a) <= hi.
Proof.
  intros H. unfold Rmax, Rmin.
  destruct (Rle_dec hi a); destruct (Rle_dec lo _); lra.
Qed.

Lemma dispatch_keeps c ev : controlsOk c -> controlsOk (dispatch c ev).
Proof.
  intros (Hr & Hp & Hd & He). pose proof PI_above_3 as Hpi.
  unfold controlsOk, dispatch, minDistance, maxDistance in *.
  destruct ev as [cx cy | cx cy | | dy]; rewrite ?He.
  - cbn [onMouseDown spherical radius phi theta isDragging documentListeners
         elementListeners].
    split; [exact Hr | split; [exact Hp | split; [reflexivity | exact He]]].
  - destruct (documentListeners c) eqn:Hdoc; cbv iota;
      [| split; [exact Hr | split; [exact Hp | split; [congruence | exact He]]]].
    unfold onMouseMove. rewrite <- Hd. cbn [negb].
    cbn [spherical radius phi theta isDragging documentListeners
         elementListeners].
    split; [exact Hr | split; [| split; [congruence | exact He]]].
    apply clamp_range. lra.
  - destruct (documentListeners c) eqn:Hdoc; cbv iota;
      cbn [onMouseUp spherical radius phi theta isDragging documentListeners
           elementListeners];
      (split; [exact Hr | split; [exact Hp | split; [| exact He]]]);
      [reflexivity | congruence].
  - cbn [onWheel spherical radius phi theta isDragging documentListeners
         elementListeners].
    split; [| split; [exact Hp | split; assumption]].
    apply clamp_range. unfold minDistance, maxDistance. lra.
Qed.

(** X14.  Orbit controls that start with the radius in [0.5, 5] and the
    polar angle in [0.1, pi - 0.1] keep both there through any sequence of
    mouse and wheel events; the listeners of the document are registered
    exactly while a drag is under way, and those of the canvas stay
    registered.  A wheel event clamps the radius whatever it was, and
    leaves the angles; a move outside a drag changes nothing. *)
Theorem orbit_controls_stay_in_range (s0 : Spherical) (events : list MouseEvent) :
  0.5 <= radius s0 <= 5 -> 0.1 <= phi s0 <= PI - 0.1 ->
  let c := foldl dispatch (newControls s0) events in
  0.5 <= radius (spherical c) <= 5 /\
  0.1 <= phi (spherical c) <= PI - 0.1 /\
  documentListeners c = isDragging c /\
  elementListeners c = true /\
  (forall k dy,
     0.5 <= radius (spherical (onWheel dy k)) <= 5 /\
     phi (spherical (onWheel dy k)) = phi (spherical k) /\
     theta (spherical (onWheel dy k)) = theta (spherical k)) /\
  (forall k cx cy, isDragging k = false -> onMouseMove cx cy k = k).
Proof.
  intros Hr Hp c.
  assert (Hinv : controlsOk c).
  { unfold c.
    assert (H0 : controlsOk (newControls s0))
      by (unfold controlsOk, minDistance, maxDistance; cbn;
          repeat split; try reflexivity; lra).
    generalize (newControls s0) H0.
    induction events as [| ev events IH]; intros k Hk; cbn [foldl].
    - exact Hk.
    - apply IH. apply (dispatch_keeps k ev Hk). }
  unfold controlsOk, minDistance, maxDistance in Hinv.
  destruct Hinv as (H1 & H2 & H3 & H4).
  repeat apply conj; try assumption; try lra.
  - intros k dy. split; [| split; reflexivity].
    cbn [onWheel spherical radius]. apply clamp_range.
    unfold minDistance, maxDistance. lra.
  - intros k cx cy Hk. unfold onMouseMove. rewrite Hk. reflexivity.
Qed.

Lemma orbit_controls_stay_in_range_witness :
  0.5 <= radius (spherical
                   (foldl dispatch
                      (newControls {| radius := 1.5; phi := 1.4; theta := 0 |})
                      [Wheel 9000; MouseDown 10 10; MouseMove 30 500; MouseUp]))
      <= 5.
Proof.
  refine (proj1 (orbit_controls_stay_in_range
                   {| radius := 1.5; phi := 1.4; theta := 0 |}
                   [Wheel 9000; MouseDown 10 10; MouseMove 30 500; MouseUp]
                   _ _)).
  - cbn. lra.
  - cbn. pose proof PI_above_3. lra.
Defined.

Lemma move_while_dragging cx cy c :
  isDragging c = true ->
  let c' := onMouseMove cx cy c in
  theta (spherical c')
  = theta (spherical c) - (cx - px (rotateStart c)) * 0.005 /\
  px (rotateStart c') = cx /\
  isDragging c' = true /\
  documentListeners c' = documentListeners c /\
  radius (spherical c') = radius (spherical c).
Proof.
  intros Hdrag. unfold onMouseMove. rewrite Hdrag. cbn.
  repeat split; reflexivity.
Qed.

Lemma drag_moves (points : list (R * R)) :
  forall c : Controls,
    isDragging c = true -> documentListeners c = true ->
    let c' := foldl dispatch c (map (fun p => MouseMove (fst p) (snd p)) points) in
    theta (spherical c')
    = theta (spherical c)
      - (default (px (rotateStart c)) (fst <$> last points)
         - px (rotateStart c)) * 0.005 /\
    radius (spherical c') = radius (spherical c).
Proof.
  induction points as [| p points IH]; intros c Hdrag Hdoc; cbv zeta.
  - cbn. split; [lra | reflexivity].
  - cbn [map foldl].
    assert (Hstep : dispatch c (MouseMove (fst p) (snd p))
              = onMouseMove (fst p) (snd p) c)
      by (unfold dispatch; rewrite Hdoc; reflexivity).
    rewrite Hstep.
    destruct (move_while_dragging (fst p) (snd p) c Hdrag)
      as (Ht & Hs & Hd & Hl & Hr).
    cbv zeta in Ht, Hs, Hd, Hl, Hr.
    destruct (IH (onMouseMove (fst p) (snd p) c) Hd ltac:(congruence))
      as [IHt IHr].
    rewrite IHt, IHr, Ht, Hs, Hr. split; [| reflexivity].
    destruct points as [| q points].
    + cbn. lra.
    + change (last (p :: q :: points)) with (last (q :: points)).
      destruct (last (q :: points)) as [r |] eqn:Hlast.
      * cbn. lra.
      * apply last_None in Hlast. discriminate.
Qed.

(** X15.  During a drag the azimuth depends only on where the pointer is:
    after a mouse-down at (x0, y0) and any sequence of moves, theta has
    decreased by 0.005 times the horizontal distance from x0 to the last
    point, whatever the path, and the radius is the one before. *)
Theorem drag_is_path_independent (c : Controls) (x0 y0 : R)
    (points : list (R * R)) :
  elementListeners c = true ->
  let drag :=
    MouseDown x0 y0 :: map (fun p => MouseMove (fst p) (snd p)) points in
  let c' := foldl dispatch c drag in
  theta (spherical c')
  = theta (spherical c) - (default x0 (fst <$> last points) - x0) * 0.005 /\
  radius (spherical c') = radius (spherical c).
Proof.
  intros He drag c'. unfold c', drag. cbn [foldl].
  assert (Hdown : dispatch c (MouseDown x0 y0) = onMouseDown x0 y0 c)
    by (unfold dispatch; rewrite He; reflexivity).
  rewrite Hdown.
  destruct (drag_moves points (onMouseDown x0 y0 c) eq_refl eq_refl)
    as (Ht & Hr).
  cbn [onMouseDown spherical rotateStart px] in Ht, Hr.
  split; assumption.
Qed.

Lemma drag_is_path_independent_witness :
  theta (spherical
           (foldl dispatch
              (newControls {| radius := 1.5; phi := 1.4; theta := 0 |})
              [MouseDown 0 0; MouseMove 50 5; MouseMove (-20) 9; MouseMove 100 0]))
  = 0 - (100 - 0) * 0.005.
Proof.
  exact (proj1 (drag_is_path_independent
                  (newControls {| radius := 1.5; phi := 1.4; theta := 0 |})
                  0 0 [(50, 5); (-20, 9); (100, 0)] eq_refl)).
Defined.

(** X16.  After [dispose] the controls are inert: no event changes them,
    and disposing again changes nothing. *)
Theorem disposed_controls_are_inert (c : Controls) (ev : MouseEvent) :
  dispatch (dispose c) ev = dispose c /\ dispose (dispose c) = dispose c.
Proof. split; [destruct ev |]; reflexivity. Qed.

(** ** Transitions *)

Lemma progress_step p rate dt :
  0 <= p <= 1 -> 0 <= rate -> 0 <= dt ->
  (if Rltb p 1 then Rmin 1 (p + dt * rate) else p) = Rmin 1 (p + dt * rate).
Proof.
  intros Hp Hr Hdt. unfold Rltb, Rmin.
  destruct (Rlt_dec p 1); [reflexivity |].
  destruct (Rle_dec 1 (p + dt * rate)); nra.
Qed.

Lemma Rmin_1_join p a b :
  0 <= a -> 0 <= b -> Rmin 1 (Rmin 1 (p + a) + b) = Rmin 1 (p + (a + b)).
Proof.
  intros Ha Hb. unfold Rmin.
  destruct (Rle_dec 1 (p + a)); destruct (Rle_dec 1 (p + (a + b)));
    destruct (Rle_dec 1 _); lra.
Qed.

Lemma Rsum_map_nonneg {A : Type} (h : A -> R) (l : list A) :
  Forall (fun a => 0 <= h a) l -> 0 <= Rsum (map h l).
Proof.
  induction 1 as [| a l Ha _ IH].
  - cbn. lra.
  - change (Rsum (map h (a :: l))) with (h a + Rsum (map h l)). lra.
Qed.

Lemma speakingRun_progress frames :
  forall g,
    0 <= gestureTransitionProgress g <= 1 ->
    Forall (fun f => 0 <= snd (fst f)) frames ->
    gestureTransitionProgress (speakingRun g frames)
    = Rmin 1 (gestureTransitionProgress g
              + Rsum (map (fun f => snd (fst f)) frames) * 1.5) /\
    currentGesture (speakingRun g frames) = currentGesture g /\
    previousHeadRotation (speakingRun g frames) = previousHeadRotation g.
Proof.
  induction frames as [| [[si dt] e] frames IH]; intros g Hp Hdts.
  - cbn. rewrite Rmult_0_l, Rplus_0_r, Rmin_right by lra.
    repeat split; reflexivity.
  - apply Forall_cons in Hdts as [Hdt Hdts]. cbn [fst snd] in Hdt.
    pose proof (speakingGesture_timer si dt e g) as Ht.
    injection Ht as _ Hcur _ Hprog _ Hprev.
    rewrite progress_step in Hprog by lra.
    pose proof (Rsum_map_nonneg (fun f : R * R * R => snd (fst f)) _ Hdts)
      as Hsum.
    change (speakingRun g ((si, dt, e) :: frames))
      with (speakingRun (speakingGesture si dt e g) frames).
    destruct (IH (speakingGesture si dt e g)) as (IHp & IHc & IHh).
    + rewrite Hprog. unfold Rmin. destruct (Rle_dec _ _); lra.
    + exact Hdts.
    + rewrite IHp, IHc, IHh, Hprog, Hcur, Hprev.
      change (Rsum (map (fun f => snd (fst f)) ((si, dt, e) :: frames)))
        with (dt + Rsum (map (fun f : R * R * R => snd (fst f)) frames)).
      repeat split.
      rewrite Rmin_1_join by nra. f_equal. ring.
Qed.

Lemma advanceRun_progress dts :
  forall m,
    0 <= expressionTransitionProgress m <= 1 ->
    Forall (fun dt => 0 <= dt) dts ->
    expressionTransitionProgress (advanceRun m dts)
    = Rmin 1 (expressionTransitionProgress m + Rsum dts * 0.8) /\
    currentExpression (advanceRun m dts) = currentExpression m.
Proof.
  induction dts as [| dt dts IH]; intros m Hp Hdts.
  - cbn. rewrite Rmult_0_l, Rplus_0_r, Rmin_right by lra. split; reflexivity.
  - apply Forall_cons in Hdts as [Hdt Hdts].
    pose proof (Rsum_nonneg _ Hdts) as Hsum.
    change (advanceRun m (dt :: dts))
      with (advanceRun (advanceExpression dt m) dts).
    assert (Hprog : expressionTransitionProgress (advanceExpression dt m)
              = Rmin 1 (expressionTransitionProgress m + dt * 0.8))
      by (cbn [advanceExpression expressionTransitionProgress];
          apply progress_step; lra).
    destruct (IH (advanceExpression dt m)) as (IHp & IHc).
    + rewrite Hprog. unfold Rmin. destruct (Rle_dec _ _); lra.
    + exact Hdts.
    + rewrite IHp, IHc, Hprog. change (Rsum (dt :: dts)) with (dt + Rsum dts).
      split; [| reflexivity].
      rewrite Rmin_1_join by nra. f_equal. ring.
Qed.

(** X17.  A transition takes a fixed time, whatever the frame rate.  Over
    speaking frames that trigger no new gesture, the gesture transition
    progress is min(1, progress + 1.5 T) after a total of T seconds, so
    the cross-fade is complete after 2/3 s; over frames that select no
    mood the expression transition progress is min(1, progress + 0.8 T),
    complete after 1.25 s.  Variant, previous head target and mood are
    kept meanwhile. *)
Theorem transitions_take_fixed_time (g : GestureState) (m : MoodState)
    (frames : list (R * R * R)) (dts : list R) :
  0 <= gestureTransitionProgress g <= 1 ->
  0 <= expressionTransitionProgress m <= 1 ->
  Forall (fun f => 0 <= snd (fst f)) frames -> Forall (fun dt => 0 <= dt) dts ->
  let T := Rsum (map (fun f => snd (fst f)) frames) in
  let g' := speakingRun g frames in
  let m' := advanceRun m dts in
  gestureTransitionProgress g' = Rmin 1 (gestureTransitionProgress g + T * 1.5) /\
  (2 / 3 <= T -> gestureTransitionProgress g' = 1) /\
  currentGesture g' = currentGesture g /\
  previousHeadRotation g' = previousHeadRotation g /\
  expressionTransitionProgress m'
  = Rmin 1 (expressionTransitionProgress m + Rsum dts * 0.8) /\
  (1.25 <= Rsum dts -> expressionTransitionProgress m' = 1) /\
  currentExpression m' = currentExpression m.
Proof.
  intros Hg Hm Hframes Hdts T g' m'.
  destruct (speakingRun_progress frames g Hg Hframes) as (Hp & Hc & Hh).
  destruct (advanceRun_progress dts m Hm Hdts) as (Hq & He).
  fold T g' in Hp, Hc, Hh. fold m' in Hq, He.
  repeat apply conj; try assumption.
  - intros HT. rewrite Hp. apply Rmin_left. lra.
  - intros HT. rewrite Hq. apply Rmin_left. lra.
Qed.

Lemma transitions_take_fixed_time_witness :
  gestureTransitionProgress
    (speakingRun (gesture (initialState 0))
       [(0.5, 0.4, 1); (0.5, 0.3, 1.3)]) = 1.
Proof.
  refine (proj1 (proj2 (transitions_take_fixed_time (gesture (initialState 0))
            (mood (initialState 0)) [(0.5, 0.4, 1); (0.5, 0.3, 1.3)] [] _ _ _ _)) _).
  - cbn. lra.
  - cbn. lra.
  - repeat constructor; cbn; lra.
  - constructor.
  - cbn. lra.
Defined.

(** X18.  The head target of a speaking frame is the eased blend between
    the previous target and the formula of the variant, plus the
    micro-movement about x and y: with k the ease of the progress, its
    offset from the formula is (1 - k) times the offset of the previous
    target, so it lies between the two, it is the formula itself once the
    progress is 1, and the neck and eyebrow targets are the formula's at
    once, with no blend. *)
Theorem head_crossfade (si dt e : R) (g : GestureState) :
  0 <= gestureTransitionProgress g <= 1 -> 0 <= dt ->
  let g' := speakingGesture si dt e g in
  let formula := gestureTargets (currentGesture g) (gesturePhase g + dt) e in
  let new := fst (fst formula) in
  let prev := previousHeadRotation g in
  let k := easeInOutQuad (gestureTransitionProgress g') in
  0 <= k <= 1 /\
  z (targetHeadRotation g') - z new = (z prev - z new) * (1 - k) /\
  x (targetHeadRotation g') - (x new + si * sin (e * 2.2) * 0.012)
  = (x prev - x new) * (1 - k) /\
  y (targetHeadRotation g') - (y new + si * cos (e * 1.8) * 0.01)
  = (y prev - y new) * (1 - k) /\
  (gestureTransitionProgress g' = 1 -> z (targetHeadRotation g') = z new) /\
  targetNeckRotation g' = snd (fst formula) /\
  targetEyebrowIntensity g' = snd formula.
Proof.
  intros Hp Hdt g' formula new prev k.
  assert (Hprog : 0 <= gestureTransitionProgress g' <= 1).
  { pose proof (speakingGesture_timer si dt e g) as Ht.
    injection Ht as _ _ _ Hprog _ _. fold g' in Hprog. rewrite Hprog.
    rewrite progress_step by lra. unfold Rmin. destruct (Rle_dec _ _); lra. }
  assert (Hk : 0 <= k <= 1) by apply easeInOutQuad_unit, Hprog.
  assert (Hk1 : gestureTransitionProgress g' = 1 -> k = 1).
  { intros H1. unfold k. rewrite H1, easeInOutQuad_high by lra. lra. }
  unfold k, new, prev, formula, g' in *. clear k new prev formula g'.
  unfold speakingGesture in *.
  destruct (gestureTargets _ _ _) as [[newHead newNeck] newEyebrow].
  cbn [fst snd gestureTransitionProgress targetHeadRotation targetNeckRotation
       targetEyebrowIntensity x y z] in *.
  repeat apply conj; try reflexivity; try lra.
  intros H1. specialize (Hk1 H1). rewrite Hk1. ring.
Qed.

Lemma head_crossfade_witness :
  0 <= easeInOutQuad
         (gestureTransitionProgress
            (speakingGesture 0.5 0.1 1 (gesture (initialState 0)))) <= 1.
Proof.
  refine (proj1 (head_crossfade 0.5 0.1 1 (gesture (initialState 0)) _ _)).
  - cbn. lra.
  - lra.
Defined.
